(** * CUDA black-hole ray tracer: host program and per-ray state machine

    A shallow embedding of the host side of the ray tracer
    ([include/black_hole_cuda.h], [src/main.cpp]): the orbit camera
    controller, the session set-up done by the [CudaRenderer] constructor and
    the frame loop [CudaRenderer::run], together with the per-ray state
    machine of the rendering kernel.

    C++ [float] and [double] values are IEEE 754 binary32 and binary64
    numbers, modelled by [spec_float] with the operations of the standard
    library's [SpecFloat] (round to nearest, ties to even). *)

From Stdlib Require Import ZArith List Bool Lia String Sorted.
From Stdlib Require Import QArith Qabs.
From Stdlib Require Import Reals Lra.
From Stdlib Require Import Floats.SpecFloat.
Import ListNotations.

Local Open Scope Z_scope.

(** ** Scalar arithmetic

    The GLM templates and the camera code are written once for any scalar
    type; the program runs them on [float]. *)

Class Arith (T : Type) := {
  s_add : T -> T -> T;
  s_sub : T -> T -> T;
  s_mul : T -> T -> T;
  s_div : T -> T -> T;
  s_sqrt : T -> T;
  s_lt : T -> T -> bool;      (* operator< *)
  s_of_Z : Z -> T;            (* an integral literal, or an int converted *)
  s_lit : Z -> Z -> T         (* the decimal literal n/d *)
}.

(** The functions of <math.h>.  The camera code calls the unqualified [sin],
    [cos] and [tan], which take and return a [double]: a [float] operand is
    promoted, the products around the call are taken in [double], and the
    value is converted to [float] where it is stored. *)
Class Trig (T : Type) := {
  wide : Type;                (* double *)
  s_widen : T -> wide;        (* promotion of a float operand *)
  s_narrow : wide -> T;       (* conversion of a double to float *)
  w_mul : wide -> wide -> wide;
  s_sin : wide -> wide;
  s_cos : wide -> wide;
  s_tan : wide -> wide;
  s_pi : T                    (* float(M_PI) *)
}.

(** ** IEEE 754 arithmetic as the C++ code uses it *)

Module IEEE.

(** [float]: binary32, 24 bits of precision, infinities at exponent 128. *)
Definition float := spec_float.
(** [double]: binary64, 53 bits of precision, infinities at exponent 1024. *)
Definition double := spec_float.

Definition fadd : float -> float -> float := SFadd 24 128.
Definition fsub : float -> float -> float := SFsub 24 128.
Definition fmul : float -> float -> float := SFmul 24 128.
Definition fdiv : float -> float -> float := SFdiv 24 128.
Definition fsqrt : float -> float := SFsqrt 24 128.

Definition dadd : double -> double -> double := SFadd 53 1024.
Definition dsub : double -> double -> double := SFsub 53 1024.
Definition dmul : double -> double -> double := SFmul 53 1024.
Definition ddiv : double -> double -> double := SFdiv 53 1024.

(** Comparison operators [<] and [<=]; both are false on a NaN operand. *)
Definition flt : spec_float -> spec_float -> bool := SFltb.
Definition fle : spec_float -> spec_float -> bool := SFleb.

(** Conversion of an integer value (an integral literal such as [1e10f],
    or an [int] converted with [float(..)]). *)
Definition float_of_Z (n : Z) : float := binary_normalize 24 128 n 0 false.
Definition double_of_Z (n : Z) : double := binary_normalize 53 1024 n 0 false.

(** A decimal literal [n / d] that is not an integer: the correctly rounded
    quotient of two exactly representable integers. *)
Definition float_lit (n d : Z) : float := fdiv (float_of_Z n) (float_of_Z d).

(** Narrowing conversion [float(x)] of a double. *)
Definition float_of_double (x : double) : float :=
  match x with
  | S754_finite s m e => binary_round 24 128 s m e
  | _ => x
  end.

(** Promotion of a float operand in a double expression (always exact). *)
Definition double_of_float (x : float) : double :=
  match x with
  | S754_finite s m e => binary_round 53 1024 s m e
  | _ => x
  end.

Definition is_nan (x : spec_float) : bool :=
  match x with S754_nan => true | _ => false end.

Definition is_finite (x : spec_float) : bool :=
  match x with S754_zero _ | S754_finite _ _ _ => true | _ => false end.

(** [M_PI] of <math.h>: the double nearest to pi, 0x400921FB54442D18. *)
Definition M_PI : double := S754_finite false 7074237752028440 (-51).

#[export] Instance float_arith : Arith float := {|
  s_add := fadd; s_sub := fsub; s_mul := fmul; s_div := fdiv;
  s_sqrt := fsqrt; s_lt := flt; s_of_Z := float_of_Z; s_lit := float_lit |}.

(** The functions [sin], [cos] and [tan] of <math.h> the camera code
    calls, on [double]. *)
Record Libm := mkLibm {
  libm_sin : double -> double;
  libm_cos : double -> double;
  libm_tan : double -> double
}.

Definition float_trig (libm : Libm) : Trig float := {|
  wide := double;
  s_widen := double_of_float; s_narrow := float_of_double; w_mul := dmul;
  s_sin := libm_sin libm; s_cos := libm_cos libm; s_tan := libm_tan libm;
  s_pi := float_of_double M_PI |}.

End IEEE.

Import IEEE.

(** ** The real numbers as scalars *)

Module RealScalar.

Definition Rltb (x y : R) : bool := if Rlt_dec x y then true else false.

#[export] Instance real_arith : Arith R := {|
  s_add := Rplus; s_sub := Rminus; s_mul := Rmult; s_div := Rdiv;
  s_sqrt := sqrt; s_lt := Rltb; s_of_Z := IZR;
  s_lit := fun n d => Rdiv (IZR n) (IZR d) |}.

#[export] Instance real_trig : Trig R := {|
  wide := R;
  s_widen := fun x => x; s_narrow := fun x => x; w_mul := Rmult;
  s_sin := sin; s_cos := cos; s_tan := tan; s_pi := PI |}.

End RealScalar.

(** ** The GLM functions the program calls *)

Module Glm.

Section Generic.
Context {T : Type} `{Arith T}.

Record vec3 := mkVec3 { vx : T; vy : T; vz : T }.

(** [glm::min], [glm::max] and [glm::clamp] on scalars, as GLM defines
    them: [min(x,y) = (y < x) ? y : x], [max(x,y) = (x < y) ? y : x],
    [clamp(x,lo,hi) = min(max(x,lo),hi)]. *)
Definition min (x y : T) : T := if s_lt y x then y else x.
Definition max (x y : T) : T := if s_lt x y then y else x.
Definition clamp (x minVal maxVal : T) : T := min (max x minVal) maxVal.

Definition vsub (a b : vec3) : vec3 :=
  mkVec3 (s_sub (vx a) (vx b)) (s_sub (vy a) (vy b)) (s_sub (vz a) (vz b)).

Definition vscale (a : vec3) (k : T) : vec3 :=
  mkVec3 (s_mul (vx a) k) (s_mul (vy a) k) (s_mul (vz a) k).

(** [glm::dot]: the products are summed from left to right. *)
Definition dot (a b : vec3) : T :=
  s_add (s_add (s_mul (vx a) (vx b)) (s_mul (vy a) (vy b)))
        (s_mul (vz a) (vz b)).

(** [glm::cross]. *)
Definition cross (x y : vec3) : vec3 :=
  mkVec3 (s_sub (s_mul (vy x) (vz y)) (s_mul (vy y) (vz x)))
         (s_sub (s_mul (vz x) (vx y)) (s_mul (vz y) (vx x)))
         (s_sub (s_mul (vx x) (vy y)) (s_mul (vx y) (vy x))).

(** [glm::inversesqrt(x) = 1 / sqrt(x)] and
    [glm::normalize(v) = v * inversesqrt(dot(v, v))]. *)
Definition inversesqrt (x : T) : T := s_div (s_of_Z 1) (s_sqrt x).
Definition normalize (v : vec3) : vec3 := vscale v (inversesqrt (dot v v)).

(** [glm::radians(degrees) = degrees * 0.01745329251994329576923690768489]. *)
Definition radians (degrees : T) : T :=
  s_mul degrees (s_lit 1745329251994329576923690768489 (10 ^ 32)).

End Generic.

Arguments vec3 T : clear implicits.
Arguments mkVec3 {T} _ _ _.

End Glm.

(** ** Constants of [black_hole_cuda.h] *)

Definition SAGA_RS : float := float_of_Z 12690000000.          (* 1.269e10f *)
Definition D_LAMBDA : float := float_of_Z 10000000.            (* 1e7f *)
Definition ESCAPE_R : float := float_of_Z (10 ^ 30).           (* 1e30f *)
Definition MAX_RAY_STEPS : Z := 100000.

(** ** Constants of GLFW used by the callbacks *)

Definition GLFW_RELEASE : Z := 0.
Definition GLFW_PRESS : Z := 1.
Definition GLFW_MOUSE_BUTTON_LEFT : Z := 0.
Definition GLFW_KEY_P : Z := 80.
Definition GLFW_KEY_R : Z := 82.
Definition GLFW_KEY_ESCAPE : Z := 256.

(** ** Structures of [black_hole_cuda.h] *)

Record CudaRay := mkRay {
  ray_x : float; ray_y : float; ray_z : float;        (* Cartesian *)
  ray_r : float; ray_theta : float; ray_phi : float;  (* spherical *)
  ray_dr : float; ray_dtheta : float; ray_dphi : float;
  ray_E : float; ray_L : float                        (* conserved *)
}.

(** [struct CudaCamera]; the scalar type is a parameter so that the camera
    code can also be read over the reals. *)
Record Camera (T : Type) := mkCamera {
  cam_position : Glm.vec3 T;
  cam_right : Glm.vec3 T;
  cam_up : Glm.vec3 T;
  cam_forward : Glm.vec3 T;
  cam_tanHalfFov : T;
  cam_aspect : T;
  cam_moving : bool
}.

Arguments mkCamera {T} _ _ _ _ _ _ _.
Arguments cam_position {T} _.
Arguments cam_right {T} _.
Arguments cam_up {T} _.
Arguments cam_forward {T} _.
Arguments cam_tanHalfFov {T} _.
Arguments cam_aspect {T} _.
Arguments cam_moving {T} _.

Definition CudaCamera := Camera float.

Record AccretionDisk := mkDisk {
  innerRadius : float;
  outerRadius : float;
  thickness : float;
  temperature : float
}.

Record BlackHole := mkBlackHole {
  bh_position : Glm.vec3 float;
  mass : float;
  schwarzschildRadius : float
}.

(** [float4] of the CUDA runtime: one RGBA pixel of the output buffer. *)
Record float4 := mkFloat4 { f4_x : float; f4_y : float; f4_z : float; f4_w : float }.

(** ** The orbit camera controller, [class CudaCameraController] *)

Module Controller.

Record CudaCameraController := mkController {
  target : Glm.vec3 float;
  radius : float;
  minRadius : float;
  maxRadius : float;
  azimuth : float;
  elevation : float;
  orbitSpeed : float;
  zoomSpeed : float;
  dragging : bool;
  moving : bool;
  lastX : double;
  lastY : double
}.

Definition fzero : float := S754_zero false.

(** Literals of the class. *)
Definition radius0 : float := float_of_Z 63419400000.        (* 6.34194e10f *)
Definition half_pi : float :=                                (* M_PI / 2.0f *)
  float_of_double (ddiv M_PI (double_of_float (float_of_Z 2))).
Definition elevation_lo : float := float_lit 1 100.          (* 0.01f *)
Definition elevation_hi : float :=                   (* float(M_PI) - 0.01f *)
  fsub (float_of_double M_PI) (float_lit 1 100).

(** The default member initialisers. *)
Definition initial : CudaCameraController :=
  {| target := Glm.mkVec3 fzero fzero fzero;
     radius := radius0;
     minRadius := float_of_Z (10 ^ 10);
     maxRadius := float_of_Z (10 ^ 12);
     azimuth := fzero;
     elevation := half_pi;
     orbitSpeed := float_lit 1 100;
     zoomSpeed := float_of_Z 25000000000;
     dragging := false;
     moving := false;
     lastX := S754_zero false;
     lastY := S754_zero false |}.

Definition set_radius (c : CudaCameraController) (v : float) :=
  mkController (target c) v (minRadius c) (maxRadius c) (azimuth c)
    (elevation c) (orbitSpeed c) (zoomSpeed c) (dragging c) (moving c)
    (lastX c) (lastY c).
Definition set_azimuth (c : CudaCameraController) (v : float) :=
  mkController (target c) (radius c) (minRadius c) (maxRadius c) v
    (elevation c) (orbitSpeed c) (zoomSpeed c) (dragging c) (moving c)
    (lastX c) (lastY c).
Definition set_elevation (c : CudaCameraController) (v : float) :=
  mkController (target c) (radius c) (minRadius c) (maxRadius c) (azimuth c)
    v (orbitSpeed c) (zoomSpeed c) (dragging c) (moving c)
    (lastX c) (lastY c).
Definition set_dragging (c : CudaCameraController) (b : bool) :=
  mkController (target c) (radius c) (minRadius c) (maxRadius c) (azimuth c)
    (elevation c) (orbitSpeed c) (zoomSpeed c) b (moving c)
    (lastX c) (lastY c).
Definition set_moving (c : CudaCameraController) (b : bool) :=
  mkController (target c) (radius c) (minRadius c) (maxRadius c) (azimuth c)
    (elevation c) (orbitSpeed c) (zoomSpeed c) (dragging c) b
    (lastX c) (lastY c).
Definition set_last (c : CudaCameraController) (x y : double) :=
  mkController (target c) (radius c) (minRadius c) (maxRadius c) (azimuth c)
    (elevation c) (orbitSpeed c) (zoomSpeed c) (dragging c) (moving c)
    x y.

(** The body of [getCamera(width, height)], for any scalar type: it reads
    [target], [radius], [azimuth], [elevation] and [moving].  The three
    coordinates of [position] are [double] expressions, since [sin] and
    [cos] return a [double], converted by the constructor of [glm::vec3];
    so is the value assigned to [tanHalfFov]. *)
Definition getCamera_on {T : Type} `{Arith T} `{Trig T}
    (target : Glm.vec3 T) (radius azimuth elevation : T) (moving : bool)
    (width height : Z) : Camera T :=
  let clampedElevation :=
    Glm.clamp elevation (s_lit 1 100) (s_sub s_pi (s_lit 1 100)) in
  let position :=
    Glm.mkVec3
      (s_narrow (w_mul (w_mul (s_widen radius)
                              (s_sin (s_widen clampedElevation)))
                       (s_cos (s_widen azimuth))))
      (s_narrow (w_mul (s_widen radius) (s_cos (s_widen clampedElevation))))
      (s_narrow (w_mul (w_mul (s_widen radius)
                              (s_sin (s_widen clampedElevation)))
                       (s_sin (s_widen azimuth)))) in
  let forward := Glm.normalize (Glm.vsub target position) in
  let worldUp := Glm.mkVec3 (s_of_Z 0) (s_of_Z 1) (s_of_Z 0) in
  let right := Glm.normalize (Glm.cross forward worldUp) in
  let up := Glm.normalize (Glm.cross right forward) in
  {| cam_position := position;
     cam_right := right;
     cam_up := up;
     cam_forward := forward;
     cam_tanHalfFov :=
       s_narrow (s_tan (s_widen (s_mul (Glm.radians (s_of_Z 60)) (s_lit 1 2))));
     cam_aspect := s_div (s_of_Z width) (s_of_Z height);
     cam_moving := moving |}.

(** [getCamera(width, height)] as the program runs it, on floats. *)
Definition getCamera (libm : Libm) (c : CudaCameraController)
    (width height : Z) : CudaCamera :=
  @getCamera_on float float_arith (float_trig libm)
    (target c) (radius c) (azimuth c) (elevation c) (moving c) width height.

(** [processMouseMove(x, y)]. *)
Definition processMouseMove (c : CudaCameraController) (x y : double)
  : CudaCameraController :=
  if negb (dragging c) then c
  else
    let dx := float_of_double (dsub x (lastX c)) in
    let dy := float_of_double (dsub y (lastY c)) in
    let c := set_azimuth c (fadd (azimuth c) (fmul dx (orbitSpeed c))) in
    let c := set_elevation c (fsub (elevation c) (fmul dy (orbitSpeed c))) in
    let c := set_elevation c
               (Glm.clamp (elevation c) elevation_lo elevation_hi) in
    let c := set_last c x y in
    set_moving c true.

(** [processMouseButton(button, action, win)]; [cursorX], [cursorY] are
    what [glfwGetCursorPos(win, ..)] stores into [lastX], [lastY]. *)
Definition processMouseButton (c : CudaCameraController)
    (button action : Z) (cursorX cursorY : double) : CudaCameraController :=
  if button =? GLFW_MOUSE_BUTTON_LEFT then
    if action =? GLFW_PRESS then
      set_moving (set_last (set_dragging c true) cursorX cursorY) true
    else if action =? GLFW_RELEASE then
      set_moving (set_dragging c false) false
    else c
  else c.

(** [processScroll(xoffset, yoffset)]. *)
Definition processScroll (c : CudaCameraController) (xoffset yoffset : double)
  : CudaCameraController :=
  let c := set_radius c
             (fsub (radius c) (fmul (float_of_double yoffset) (zoomSpeed c))) in
  let c := set_radius c (Glm.clamp (radius c) (minRadius c) (maxRadius c)) in
  set_moving c true.

(** The three presets of [case GLFW_KEY_P]. *)
Definition apply_preset (c : CudaCameraController) (preset : Z)
  : CudaCameraController :=
  if preset =? 0 then
    set_elevation (set_azimuth (set_radius c radius0) fzero) half_pi
  else if preset =? 1 then
    set_elevation (set_azimuth (set_radius c (float_of_Z 80000000000)) fzero)
      (float_lit 3 10)
  else if preset =? 2 then
    set_elevation
      (set_azimuth (set_radius c (float_of_Z 30000000000))
         (float_of_double (ddiv M_PI (double_of_float (float_of_Z 4)))))
      (float_of_double (ddiv M_PI (double_of_float (float_of_Z 3))))
  else c.

(** [processKey(key, scancode, action, mods)].  The function-local
    [static int preset] outlives the call, so it is threaded through next
    to the controller. *)
Definition processKey (st : CudaCameraController * Z)
    (key scancode action mods : Z) : CudaCameraController * Z :=
  let (c, preset) := st in
  if action =? GLFW_PRESS then
    let st' :=
      if key =? GLFW_KEY_R then
        (set_elevation (set_azimuth (set_radius c radius0) fzero) half_pi,
         preset)
      else if key =? GLFW_KEY_P then
        let preset := Z.rem (preset + 1) 3 in
        (apply_preset c preset, preset)
      else (c, preset) in
    (set_moving (fst st') true, snd st')
  else (c, preset).

(** The input events GLFW delivers to the four callbacks installed by
    [initOpenGL]. *)
Inductive Event :=
| MouseMove (x y : double)
| MouseButton (button action : Z) (cursorX cursorY : double)
| Scroll (xoffset yoffset : double)
| Key (key scancode action mods : Z).

Definition dispatch (st : CudaCameraController * Z) (ev : Event)
  : CudaCameraController * Z :=
  match ev with
  | MouseMove x y => (processMouseMove (fst st) x y, snd st)
  | MouseButton b a cx cy => (processMouseButton (fst st) b a cx cy, snd st)
  | Scroll xo yo => (processScroll (fst st) xo yo, snd st)
  | Key k sc a m => processKey st k sc a m
  end.

Definition dispatch_all (st : CudaCameraController * Z) (evs : list Event)
  : CudaCameraController * Z :=
  fold_left dispatch evs st.

(** The radius lies in the orbit range of the controller. *)
Definition in_orbit_range (c : CudaCameraController) : bool :=
  fle (minRadius c) (radius c) && fle (radius c) (maxRadius c).

End Controller.

(** ** The per-ray state machine of the rendering kernel

    [launchPhotorealisticKernel] is declared in [black_hole_cuda.h] and
    implemented in [cuda_kernels.cu], which is not among the sources; its
    per-ray loop is written here from the specification (sections 4.2, 4.3
    and 7), with the constants [ESCAPE_R] and [MAX_RAY_STEPS] of the
    header. *)

Module Kernel.

(** Modelled from the spec: the states of the loop of section 4.2, "{Active,
    Escaped, Captured, DiskHit, StepLimitReached} with Active as the only
    non-terminal state"; the kernel itself is missing. *)
Inductive RayStatus := Active | Escaped | Captured | DiskHit | StepLimitReached.

(** Modelled from the spec: StepLimitReached is "treated as Escaped" when the
    colour is resolved (section 4.2); the kernel itself is missing. *)
Definition resolve (st : RayStatus) : RayStatus :=
  match st with
  | StepLimitReached => Escaped
  | _ => st
  end.

(** Modelled from the spec: numerical instability is "detected via
    non-finite position/velocity values" (section 7); the kernel itself is
    missing. *)
Definition ray_is_finite (ray : CudaRay) : bool :=
  is_finite (ray_x ray) && is_finite (ray_y ray) && is_finite (ray_z ray) &&
  is_finite (ray_r ray) && is_finite (ray_theta ray) && is_finite (ray_phi ray) &&
  is_finite (ray_dr ray) && is_finite (ray_dtheta ray) && is_finite (ray_dphi ray).

(** Modelled from the spec: "the disk's radial band (inner..outer radius)"
    (section 4.2); the kernel itself is missing. *)
Definition in_disk_band (disk : AccretionDisk) (ray : CudaRay) : bool :=
  fle (innerRadius disk) (ray_r ray) && fle (ray_r ray) (outerRadius disk).

Section Integrator.

(** One integration step of size [D_LAMBDA], and the test that "theta passes
    through the disk's equatorial plane within the configured thickness":
    the specification leaves both formulas open (section 9), so they are
    parameters. *)
Variable advance : CudaRay -> CudaRay.
Variable crossesPlane : AccretionDisk -> CudaRay -> bool.

Variable disk : AccretionDisk.
Variable blackHole : BlackHole.

(** Modelled from the spec: the termination classifier of section 4.3, the
    kernel itself is missing.  A non-finite state is "an immediate Escaped"
    (section 4.2); "disk-crossing is checked before escape/capture
    thresholds"; Escaped "when r exceeds a large escape radius"; Captured
    "when r falls at or below the Schwarzschild radius". *)
Definition classify (ray : CudaRay) : RayStatus :=
  if negb (ray_is_finite ray) then Escaped
  else if in_disk_band disk ray && crossesPlane disk ray then DiskHit
  else if flt ESCAPE_R (ray_r ray) then Escaped
  else if fle (ray_r ray) (schwarzschildRadius blackHole) then Captured
  else Active.

(** Modelled from the spec: the loop of section 4.2, the kernel itself is
    missing.  The classifier is consulted at every step; an Active ray is
    advanced while the step budget lasts and becomes StepLimitReached when
    "a hard cap on integration steps ... is reached without another terminal
    condition".  The result is the terminal state, the ray at that point and
    the number of integration steps taken. *)
Fixpoint integrate (budget : nat) (steps : Z) (ray : CudaRay)
  : RayStatus * CudaRay * Z :=
  match classify ray with
  | Active =>
      match budget with
      | O => (StepLimitReached, ray, steps)
      | S budget' => integrate budget' (steps + 1) (advance ray)
      end
  | st => (st, ray, steps)
  end.

(** Modelled from the spec: one ray, traced with the step cap
    [MAX_RAY_STEPS]; the kernel itself is missing. *)
Definition traceRay (ray : CudaRay) : RayStatus * CudaRay * Z :=
  integrate (Z.to_nat MAX_RAY_STEPS) 0 ray.

End Integrator.

(** Modelled from the spec: one admissible plane test, the height of the
    ray above the equatorial plane against the disk thickness; the kernel
    itself is missing.  It is used in examples only. *)
Definition within_thickness (disk : AccretionDisk) (ray : CudaRay) : bool :=
  fle (SFabs (ray_y ray)) (thickness disk).

End Kernel.

(** ** The renderer, [class CudaRenderer]

    The texture, the quad, the shader program and what is written to the
    console (the banner, the FPS counter) have no influence on the data the
    kernel receives or on the buffer it fills; they are left out.  The calls
    that can fail are kept, with the answer of the window system, OpenGL or
    CUDA as an input. *)

Module Renderer.

Import Controller.

(** A call either returns, throws [std::runtime_error] or ends the process
    with [exit(status)] (the macros [CUDA_CHECK] and [GL_CHECK]). *)
Inductive Outcome (A : Type) :=
| Done (a : A)
| Thrown (what : string)
| Exited (status : Z).

Arguments Done {A} _.
Arguments Thrown {A} _.
Arguments Exited {A} _.

(** The data members the claims are about; the window and the OpenGL and
    CUDA handles are opaque and left out. *)
Record CudaRenderer := mkRenderer {
  width : Z;
  height : Z;
  disk : AccretionDisk;
  blackHole : BlackHole;
  cameraController : CudaCameraController
}.

(** What the window system, OpenGL and CUDA answer during construction. *)
Record InitEnv := mkInitEnv {
  glfwInit_ok : bool;
  glfwCreateWindow_ok : bool;
  glewInit_ok : bool;
  gl_texture_ok : bool;
  gl_quad_ok : bool;
  cudaSetDevice_ok : bool;
  cudaRegisterImage_ok : bool;
  cudaMalloc_ok : bool;
  cudaGetDeviceProperties_ok : bool
}.

(** [initOpenGL()]. *)
Definition initOpenGL (env : InitEnv) : Outcome unit :=
  if negb (glfwInit_ok env) then Thrown "Failed to initialize GLFW"
  else if negb (glfwCreateWindow_ok env) then Thrown "Failed to create GLFW window"
  else if negb (glewInit_ok env) then Thrown "Failed to initialize GLEW"
  else if negb (gl_texture_ok env) then Exited 1
  else if negb (gl_quad_ok env) then Exited 1
  else Done tt.

(** [initCUDA()]. *)
Definition initCUDA (env : InitEnv) : Outcome unit :=
  if negb (cudaSetDevice_ok env) then Exited 1
  else if negb (cudaRegisterImage_ok env) then Exited 1
  else if negb (cudaMalloc_ok env) then Exited 1
  else if negb (cudaGetDeviceProperties_ok env) then Exited 1
  else Done tt.

(** The black hole and the disk the constructor assigns. *)
Definition session_blackHole : BlackHole :=
  {| bh_position := Glm.mkVec3 fzero fzero fzero;
     mass := float_of_Z (854 * 10 ^ 34);                       (* 8.54e36f *)
     schwarzschildRadius := SAGA_RS |}.

Definition session_disk : AccretionDisk :=
  {| innerRadius := fmul SAGA_RS (float_of_Z 3);
     outerRadius := fmul SAGA_RS (float_of_Z 20);
     thickness := fmul SAGA_RS (float_lit 1 10);
     temperature := float_of_Z 50000 |}.

(** The constructor [CudaRenderer(w, h)]. *)
Definition CudaRenderer_new (env : InitEnv) (w h : Z) : Outcome CudaRenderer :=
  let r := {| width := w; height := h;
              disk := session_disk; blackHole := session_blackHole;
              cameraController := initial |} in
  match initOpenGL env with
  | Done _ =>
      match initCUDA env with
      | Done _ => Done r
      | Thrown what => Thrown what
      | Exited status => Exited status
      end
  | Thrown what => Thrown what
  | Exited status => Exited status
  end.

(** The arguments of one call of [launchPhotorealisticKernel] (the output
    pointer and the default stream apart). *)
Record LaunchArgs := mkLaunchArgs {
  la_camera : CudaCamera;
  la_disk : AccretionDisk;
  la_blackHole : BlackHole;
  la_width : Z;
  la_height : Z;
  la_time : float
}.

(** The device buffer [d_output], the kernel that may still be running on
    it, and the OpenGL texture the buffer is copied into. *)
Record Device := mkDevice {
  d_output : list float4;
  in_flight : option LaunchArgs;
  texture : list float4
}.

(** The program state the frame loop works on: the renderer object the
    callbacks reach through the window user pointer, the [static int preset]
    of [processKey], the close flag of the window and the device. *)
Record Program := mkProgram {
  renderer : CudaRenderer;
  preset : Z;
  shouldClose : bool;
  device : Device;
  frameCount : Z
}.

(** What the environment does during one iteration of the loop. *)
Record FrameEnv := mkFrameEnv {
  fe_events : list Event;      (* callbacks run by glfwPollEvents *)
  fe_close : bool;             (* the user closed the window meanwhile *)
  fe_escape : bool;            (* glfwGetKey(window, GLFW_KEY_ESCAPE) == GLFW_PRESS *)
  fe_now : Z;                  (* high_resolution_clock::now(), in nanoseconds *)
  fe_written : nat -> bool;    (* pixels stored when the launch returns *)
  fe_sync_ok : bool;           (* cudaDeviceSynchronize *)
  fe_map_ok : bool;            (* cudaGraphicsMapResources *)
  fe_array_ok : bool;          (* cudaGraphicsSubResourceGetMappedArray *)
  fe_copy_ok : bool;           (* cudaMemcpy2DToArray *)
  fe_unmap_ok : bool           (* cudaGraphicsUnmapResources *)
}.

(** What one iteration did: the kernel launch, the buffer handed to the
    display (the content [cudaMemcpy2DToArray] copied and whether a kernel
    was still running then) and the texture shown by [glfwSwapBuffers]. *)
Record FrameRecord := mkFrameRecord {
  fr_args : LaunchArgs;
  fr_handoff : option (list float4 * option LaunchArgs);
  fr_shown : option (list float4)
}.

(** How the loop ended on the iterations supplied. *)
Inductive Ending :=
| Returned               (* the window was closed, [run] returned *)
| Died (status : Z)      (* a CUDA call failed, [exit(status)] *)
| Running.               (* still looping *)

Definition set_controller (r : CudaRenderer) (c : CudaCameraController) :=
  mkRenderer (width r) (height r) (disk r) (blackHole r) c.

(** The four callbacks installed by [initOpenGL]: each one fetches the
    renderer from the window and calls the controller. *)
Definition on_event (p : Program) (ev : Event) : Program :=
  let st := dispatch (cameraController (renderer p), preset p) ev in
  mkProgram (set_controller (renderer p) (fst st)) (snd st)
    (shouldClose p) (device p) (frameCount p).

Definition set_shouldClose (p : Program) (b : bool) : Program :=
  mkProgram (renderer p) (preset p) b (device p) (frameCount p).

Definition set_device (p : Program) (d : Device) : Program :=
  mkProgram (renderer p) (preset p) (shouldClose p) d (frameCount p).

(** [glfwPollEvents()]. *)
Definition pollEvents (p : Program) (env : FrameEnv) : Program :=
  let p := fold_left on_event (fe_events env) p in
  set_shouldClose p (shouldClose p || fe_close env).

(** [std::chrono::duration<float>(currentTime - startTime).count()]: the
    tick count (nanoseconds) is converted to float and divided by the float
    1e9, as [duration_cast] prescribes. *)
Definition elapsed_seconds (startTime currentTime : Z) : float :=
  fdiv (float_of_Z (currentTime - startTime)) (float_of_Z 1000000000).

Definition black_pixel : float4 := mkFloat4 fzero fzero fzero fzero.

Section Run.

Variable libm : Libm.

(** The colour the kernel stores at pixel slot [i] of the output buffer;
    [cuda_kernels.cu] is not among the sources. *)
Variable kernel : LaunchArgs -> nat -> float4.

Definition pixel_count (a : LaunchArgs) : nat :=
  Z.to_nat (la_width a * la_height a).

(** The buffer once the kernel launched with [a] has finished. *)
Definition frame_pixels (a : LaunchArgs) : list float4 :=
  map (kernel a) (seq 0 (pixel_count a)).

(** The buffer while that kernel runs: the slots of [written] hold the new
    colours, the others what was there before. *)
Definition partial_frame (written : nat -> bool) (a : LaunchArgs)
    (old : list float4) : list float4 :=
  map (fun i => if written i then kernel a i else nth i old black_pixel)
      (seq 0 (pixel_count a)).

(** [launchPhotorealisticKernel(d_output, ...)]: the kernel is started and
    the call returns; [written] tells how far it has got by then. *)
Definition launchPhotorealisticKernel (d : Device) (a : LaunchArgs)
    (written : nat -> bool) : Device :=
  mkDevice (partial_frame written a (d_output d)) (Some a) (texture d).

(** [cudaDeviceSynchronize()], when it succeeds: it returns once the
    kernel in flight has stored all its pixels. *)
Definition cudaDeviceSynchronize (d : Device) : Device :=
  match in_flight d with
  | Some a => mkDevice (frame_pixels a) None (texture d)
  | None => d
  end.

(** [cudaMemcpy2DToArray(cuArray, 0, 0, d_output, ...)]: the texture
    receives what the buffer holds at that moment. *)
Definition cudaMemcpy2DToArray (d : Device) : Device :=
  mkDevice (d_output d) (in_flight d) (d_output d).

(** One iteration of the [while] loop of [run].  The result is the new
    program state, the record of the frame and, if a [CUDA_CHECK] failed,
    the exit status. *)
Definition iteration (startTime : Z) (p : Program) (env : FrameEnv)
  : Program * FrameRecord * option Z :=
  let p := pollEvents p env in
  let p := if fe_escape env then set_shouldClose p true else p in
  let time := elapsed_seconds startTime (fe_now env) in
  let r := renderer p in
  let camera := getCamera libm (cameraController r) (width r) (height r) in
  let args := mkLaunchArgs camera (disk r) (blackHole r) (width r) (height r) time in
  let p := set_device p (launchPhotorealisticKernel (device p) args (fe_written env)) in
  if negb (fe_sync_ok env) then (p, mkFrameRecord args None None, Some 1)
  else
    let p := set_device p (cudaDeviceSynchronize (device p)) in
    if negb (fe_map_ok env) then (p, mkFrameRecord args None None, Some 1)
    else if negb (fe_array_ok env) then (p, mkFrameRecord args None None, Some 1)
    else if negb (fe_copy_ok env) then (p, mkFrameRecord args None None, Some 1)
    else
      let handoff := (d_output (device p), in_flight (device p)) in
      let p := set_device p (cudaMemcpy2DToArray (device p)) in
      if negb (fe_unmap_ok env)
      then (p, mkFrameRecord args (Some handoff) None, Some 1)
      else
        let shown := texture (device p) in
        let p := mkProgram (renderer p) (preset p) (shouldClose p) (device p)
                   (frameCount p + 1) in
        (p, mkFrameRecord args (Some handoff) (Some shown), None).

(** The loop of [run] on the iterations the environment supplies. *)
Fixpoint run_loop (startTime : Z) (p : Program) (envs : list FrameEnv)
  : list FrameRecord * Ending * Program :=
  if shouldClose p then ([], Returned, p)
  else
    match envs with
    | [] => ([], Running, p)
    | env :: envs' =>
        match iteration startTime p env with
        | (p', fr, Some status) => ([fr], Died status, p')
        | (p', fr, None) =>
            let '(frs, ending, pf) := run_loop startTime p' envs' in
            (fr :: frs, ending, pf)
        end
    end.

(** [run()], entered at clock reading [startTime] with the renderer [r]
    just constructed; [garbage] is what the freshly allocated buffer and
    texture hold. *)
Definition run (r : CudaRenderer) (garbage : list float4) (startTime : Z)
    (envs : list FrameEnv) : list FrameRecord * Ending * Program :=
  run_loop startTime
    (mkProgram r 0 false (mkDevice garbage None garbage) 0) envs.

Definition frames (res : list FrameRecord * Ending * Program) : list FrameRecord :=
  fst (fst res).

End Run.

End Renderer.

(** ** Notions used in the statements *)

(** *** The order of the floats *)

Module FloatOrder.

(** [SFcompare] orders the numbers by sign first, then by exponent, then by
    significand.  [rank] gives the three keys of that lexicographic order. *)
Definition rank (x : spec_float) : Z * Z * Z :=
  match x with
  | S754_nan => (0, 0, 0)
  | S754_zero _ => (0, 0, 0)
  | S754_infinity true => (-2, 0, 0)
  | S754_infinity false => (2, 0, 0)
  | S754_finite true m e => (-1, - e, - Zpos m)
  | S754_finite false m e => (1, e, Zpos m)
  end.

Definition lex_lt (p q : Z * Z * Z) : Prop :=
  let '(a, b, c) := p in
  let '(a', b', c') := q in
  a < a' \/ (a = a' /\ (b < b' \/ (b = b' /\ c < c'))).

End FloatOrder.

(** *** Physical constants and exact values *)

Module Physics.



Definition c : Q := 299792458 # 1.


End Physics.

(** *** The invariant of the camera controller *)

Module ControllerInv.

Import Controller.

(** The fields no member function assigns keep their initial values. *)
Definition fixed_fields (c : CudaCameraController) : Prop :=
  minRadius c = minRadius initial /\
  maxRadius c = maxRadius initial /\
  zoomSpeed c = zoomSpeed initial.

Definition orbit_inv (c : CudaCameraController) : Prop :=
  fixed_fields c /\ in_orbit_range c = true.

(** An event whose scroll offset, if it has one, is a number. *)
Definition numeric_event (ev : Event) : bool :=
  match ev with
  | Scroll _ yoffset => negb (is_nan yoffset)
  | _ => true
  end.

Definition sample_events : list Event :=
  [ Scroll (S754_zero false) (double_of_Z 3);
    Key GLFW_KEY_P 0 GLFW_PRESS 0;
    MouseButton GLFW_MOUSE_BUTTON_LEFT GLFW_PRESS (double_of_Z 10) (double_of_Z 20);
    MouseMove (double_of_Z 40) (double_of_Z 25);
    Scroll (S754_zero false) (double_of_Z (-100));
    Key GLFW_KEY_R 0 GLFW_PRESS 0;
    Scroll (S754_zero false) (S754_infinity false) ].

End ControllerInv.

(** *** Sample rays *)

Module SampleRays.

(** A ray on a bound orbit that the step never moves. *)
Definition parked_ray : CudaRay :=
  let r := float_of_Z 500000000000 in
  let z := S754_zero false in
  mkRay r r z r z z z z z z z.

End SampleRays.

(** *** A sample session *)

Module SampleSession.

Import Controller Renderer.

Definition all_ok : InitEnv :=
  mkInitEnv true true true true true true true true true.

Definition sample_renderer : CudaRenderer :=
  mkRenderer 1200 900 session_disk session_blackHole initial.

Definition sample_libm : Libm := mkLibm (fun x => x) (fun x => x) (fun x => x).

Definition sample_kernel (a : LaunchArgs) (i : nat) : float4 :=
  mkFloat4 (la_time a) (float_of_Z (Z.of_nat i)) fzero (float_of_Z 1).

Definition sample_frame (now : Z) (evs : list Event) : FrameEnv :=
  mkFrameEnv evs false false now Nat.even true true true true true.

Definition sample_envs : list FrameEnv :=
  [ sample_frame 1016000000 [];
    sample_frame 1033000000 ControllerInv.sample_events;
    sample_frame 1049000000 [] ].

(** A session with a 4 x 3 window, and two iterations between which the
    clock is set back by 17 ms. *)
Definition small_renderer : CudaRenderer :=
  mkRenderer 4 3 session_disk session_blackHole initial.

Definition backward_envs : list FrameEnv :=
  [ sample_frame 1033000000 []; sample_frame 1016000000 [] ].

End SampleSession.

(** *** The camera over the reals *)

Module CameraSpec.
Import RealScalar.

(** The camera code read over the real numbers: [float] is replaced by [R],
    the functions of <math.h> by the real ones and [M_PI] by pi.  [target]
    is the origin, its initial value, which no member function changes. *)
Definition getCamera_real (radius azimuth elevation : R) (moving : bool)
    (width height : Z) : Camera R :=
  Controller.getCamera_on (Glm.mkVec3 0%R 0%R 0%R) radius azimuth elevation
    moving width height.

(** Three unit vectors, pairwise orthogonal. *)
Definition orthonormal (a b c : Glm.vec3 R) : Prop :=
  (Glm.dot a a = 1 /\ Glm.dot b b = 1 /\ Glm.dot c c = 1 /\
   Glm.dot a b = 0 /\ Glm.dot a c = 0 /\ Glm.dot b c = 0)%R.

End CameraSpec.

(** *** Rounding to nearest even, in integers *)

Module Rounding.

(** Where the fraction [P/Q] lies between its floor and the next integer:
    the location [SFdiv] and the right shifts compute. *)
Definition loc_of (P Q : Z) : location :=
  if P mod Q =? 0 then loc_Exact else loc_Inexact (2 * (P mod Q) ?= Q).

(** [P/Q] rounded to the nearest integer, ties to even. *)
Definition rne (P Q : Z) : Z :=
  round_nearest_even (P / Q) (loc_of P Q).

(** A fraction [P/Q] with 2^23 <= P/Q < 2^24, scaled by 2^e, rounded to 24
    bits: the exponent and the significand of the result. *)
Definition round24 (P Q e : Z) : Z * Z :=
  if rne P Q =? 2 ^ 24 then (e + 1, 2 ^ 23) else (e, rne P Q).

(** The lexicographic order of exponent and significand. *)
Definition lex_le (a b : Z * Z) : Prop :=
  fst a < fst b \/ (fst a = fst b /\ snd a <= snd b).

(** The integer [n > 0] as a fraction with a 24-bit integer part and its
    exponent, and [n] rounded to a float. *)
Definition round_int (n : Z) : Z * Z :=
  let d := Zdigits2 n in
  round24 (n * 2 ^ Z.max 0 (24 - d)) (2 ^ Z.max 0 (d - 24)) (d - 24).

(** The significand of the float 1e9, which is 15625000 * 2^6. *)
Definition giga_m : Z := 15625000.

(** The float with significand [m] (24 bits) and exponent [e], divided by
    the float 1e9 and rounded. *)
Definition round_div (em : Z * Z) : Z * Z :=
  let (e, m) := em in
  let k := Zdigits2 (m * 2 ^ 24 / giga_m) - 24 in
  round24 (m * 2 ^ 24) (2 ^ k * giga_m) (e - 30 + k).

End Rounding.

(** *** The clock of the frame loop *)

Module ClockSpec.
Import Renderer.

(** The time arguments of the kernel launches of a run, in order. *)
Definition launch_times (res : list FrameRecord * Ending * Program) : list float :=
  map (fun fr => la_time (fr_args fr)) (frames res).

(** The readings of a clock that never goes back, [startTime] first, with
    tick counts since [startTime] that fit the 64-bit [rep] of the clock. *)
Definition steady_clock (startTime : Z) (envs : list FrameEnv) : Prop :=
  Sorted Z.le (startTime :: map fe_now envs) /\
  Forall (fun env => fe_now env - startTime < 2 ^ 63) envs.

End ClockSpec.

(** ** Notions used in the further properties *)

Module ControllerTraces.

Import Controller.

(** An event whose cursor coordinates, if it has any, are finite numbers. *)
Definition finite_cursor (ev : Event) : bool :=
  match ev with
  | MouseMove x y => is_finite x && is_finite y
  | MouseButton _ _ cursorX cursorY => is_finite cursorX && is_finite cursorY
  | _ => true
  end.

(** The elevation lies in the range [processMouseMove] and [getCamera]
    clamp it to. *)
Definition in_elevation_range (c : CudaCameraController) : bool :=
  fle elevation_lo (elevation c) && fle (elevation c) elevation_hi.

Definition elevation_inv (c : CudaCameraController) : Prop :=
  orbitSpeed c = orbitSpeed initial /\
  is_finite (lastY c) = true /\
  in_elevation_range c = true.

Definition is_key (ev : Event) : bool :=
  match ev with Key _ _ _ _ => true | _ => false end.

(** A press or a release of the left mouse button. *)
Definition is_left_button (ev : Event) : bool :=
  match ev with
  | MouseButton button action _ _ =>
      (button =? GLFW_MOUSE_BUTTON_LEFT)
      && ((action =? GLFW_PRESS) || (action =? GLFW_RELEASE))
  | _ => false
  end.

Definition is_left_release (ev : Event) : bool :=
  match ev with
  | MouseButton button action _ _ =>
      (button =? GLFW_MOUSE_BUTTON_LEFT) && (action =? GLFW_RELEASE)
  | _ => false
  end.

(** A press of the key [P]. *)
Definition press_P : Event := Key GLFW_KEY_P 0 GLFW_PRESS 0.

(** A controller whose radius a NaN scroll has destroyed. *)
Definition broken : CudaCameraController :=
  processScroll initial (S754_zero false) S754_nan.

End ControllerTraces.

Module ControllerFlags.

Import Controller ControllerTraces.

(** What a left-button event does to the dragging flag, read off
    [processMouseButton]; any other event keeps it. *)
Definition drag_step (d : bool) (ev : Event) : bool :=
  match ev with
  | MouseButton button action _ _ =>
      if button =? GLFW_MOUSE_BUTTON_LEFT then
        if action =? GLFW_PRESS then true
        else if action =? GLFW_RELEASE then false
        else d
      else d
  | _ => d
  end.

Definition three_P : list Event := [press_P; press_P; press_P].

End ControllerFlags.

Module ProgramSpec.

Import Controller Renderer.

(** Every initialisation step succeeded. *)
Definition init_ok (env : InitEnv) : bool :=
  glfwInit_ok env && glfwCreateWindow_ok env && glewInit_ok env
  && gl_texture_ok env && gl_quad_ok env
  && cudaSetDevice_ok env && cudaRegisterImage_ok env && cudaMalloc_ok env
  && cudaGetDeviceProperties_ok env.

(** The three steps of [initOpenGL] that throw when they fail. *)
Definition window_ok (env : InitEnv) : bool :=
  glfwInit_ok env && glfwCreateWindow_ok env && glewInit_ok env.

(** The readings of a clock that never shows a time before [startTime], in
    any order, with tick counts since [startTime] that fit the 64-bit
    [rep] of the clock. *)
Definition clock_not_before (startTime : Z) (envs : list FrameEnv) : Prop :=
  Forall (fun env => startTime <= fe_now env /\
                     fe_now env - startTime < 2 ^ 63) envs.

(** Every CUDA call of one iteration succeeded. *)
Definition cuda_ok (env : FrameEnv) : bool :=
  fe_sync_ok env && fe_map_ok env && fe_array_ok env && fe_copy_ok env
  && fe_unmap_ok env.

(** The frame reached [glfwSwapBuffers]. *)
Definition was_shown (fr : FrameRecord) : bool :=
  match fr_shown fr with Some _ => true | None => false end.

(** The events delivered in the first [n] iterations. *)
Definition events_through (n : nat) (envs : list FrameEnv) : list Event :=
  List.concat (map fe_events (firstn n envs)).

(** [main()]: a session of 1200 x 900 pixels.  The result is the frames
    rendered and the exit status: -1 when the constructor threw, the status
    of [exit] when a check failed, 0 when [run] returned; no status while
    the loop is still running. *)
Definition main (libm : Libm) (kernel : LaunchArgs -> nat -> float4)
    (env : InitEnv) (garbage : list float4) (startTime : Z)
    (envs : list FrameEnv) : list FrameRecord * option Z :=
  match CudaRenderer_new env 1200 900 with
  | Done r =>
      let '(frs, ending, _) := run libm kernel r garbage startTime envs in
      (frs, match ending with
            | Returned => Some 0
            | Died status => Some status
            | Running => None
            end)
  | Thrown _ => ([], Some (-1))
  | Exited status => ([], Some status)
  end.

(** The frames of a short run of a session with a 4 x 3 window, and the
    second of them. *)
Definition small_frames : list FrameRecord :=
  frames (run SampleSession.sample_libm SampleSession.sample_kernel
            SampleSession.small_renderer [] 1000000000
            SampleSession.sample_envs).

Definition no_frame : FrameRecord :=
  mkFrameRecord
    (mkLaunchArgs (getCamera SampleSession.sample_libm initial 4 3)
       session_disk session_blackHole 4 3 fzero)
    None None.

Definition second_frame : FrameRecord := nth 1 small_frames no_frame.

(** A program at the start of [run], and an iteration during which Escape
    is held. *)
Definition start_program : Program :=
  mkProgram SampleSession.small_renderer 0 false (mkDevice [] None []) 0.

Definition escape_frame : FrameEnv :=
  mkFrameEnv [] false true 1016000000 Nat.even true true true true true.

End ProgramSpec.

(** * Properties *)

(** ** Rounding and comparison of floats *)

Module FloatFacts.

Section IterPos.
Context {A : Type} (f : A -> A) (P : A -> Prop).
Hypothesis f_keeps : forall x, P x -> P (f x).

Lemma iter_pos_keeps (p : positive) : forall x, P x -> P (iter_pos f p x).
Proof.
  induction p as [p IH | p IH | ]; intros x Hx; simpl; auto.
Qed.
End IterPos.

Lemma shr_1_nonneg mrs : 0 <= shr_m mrs -> 0 <= shr_m (shr_1 mrs).
Proof.
  destruct mrs as [m r s]; simpl.
  destruct m as [ | [p | p | ] | p]; simpl; lia.
Qed.

Lemma shr_nonneg mrs e n : 0 <= shr_m mrs -> 0 <= shr_m (fst (shr mrs e n)).
Proof.
  intros H. destruct n as [ | p | p]; simpl; auto.
  apply (iter_pos_keeps shr_1 (fun x => 0 <= shr_m x)); auto using shr_1_nonneg.
Qed.

Lemma shr_record_of_loc_m m l : shr_m (shr_record_of_loc m l) = m.
Proof. destruct l as [ | [ | | ]]; reflexivity. Qed.

Lemma round_nearest_even_nonneg m l : 0 <= m -> 0 <= round_nearest_even m l.
Proof.
  intros H. destruct l as [ | [ | | ]]; simpl; try lia.
  destruct (Z.even m); lia.
Qed.

Lemma shr_fexp_nonneg prec emax m e l :
  0 <= m -> 0 <= shr_m (fst (shr_fexp prec emax m e l)).
Proof.
  intros H. unfold shr_fexp. apply shr_nonneg.
  rewrite shr_record_of_loc_m. exact H.
Qed.

(** Rounding a non-negative significand never produces a NaN. *)
Lemma binary_round_aux_not_nan prec emax s m e l :
  0 <= m -> is_nan (binary_round_aux prec emax s m e l) = false.
Proof.
  intros H. unfold binary_round_aux.
  pose proof (shr_fexp_nonneg prec emax m e l H) as H1.
  destruct (shr_fexp prec emax m e l) as [mrs' e']. simpl in H1.
  pose proof (shr_fexp_nonneg prec emax
                (round_nearest_even (shr_m mrs') (loc_of_shr_record mrs'))
                e' loc_Exact (round_nearest_even_nonneg _ _ H1)) as H2.
  destruct (shr_fexp prec emax _ e' loc_Exact) as [mrs'' e'']. simpl in H2.
  destruct (shr_m mrs'') as [ | q | q]; try reflexivity.
  - destruct (e'' <=? emax - prec); reflexivity.
  - lia.
Qed.

Lemma binary_round_not_nan prec emax s m e :
  is_nan (binary_round prec emax s m e) = false.
Proof.
  unfold binary_round.
  destruct (shl_align m e _) as [mz ez].
  apply binary_round_aux_not_nan. lia.
Qed.

Lemma binary_normalize_not_nan prec emax m e sz :
  is_nan (binary_normalize prec emax m e sz) = false.
Proof.
  destruct m; simpl; auto using binary_round_not_nan.
Qed.

Lemma float_of_double_not_nan x :
  is_nan x = false -> is_nan (float_of_double x) = false.
Proof.
  destruct x; simpl; auto using binary_round_not_nan.
Qed.

(** A product with a finite non-zero factor is a NaN only if the other
    factor is. *)
Lemma fmul_finite_not_nan x s m e :
  is_nan x = false -> is_nan (fmul x (S754_finite s m e)) = false.
Proof.
  destruct x; simpl; intros H; try reflexivity; try discriminate.
  apply binary_round_aux_not_nan. lia.
Qed.

(** A finite number minus anything but a NaN is not a NaN. *)
Lemma fsub_finite_not_nan x y :
  is_finite x = true -> is_nan y = false -> is_nan (fsub x y) = false.
Proof.
  destruct x as [sx | sx | | sx mx ex], y as [sy | sy | | sy my ey];
    simpl; intros Hx Hy; try reflexivity; try discriminate.
  - destruct sx, sy; reflexivity.
  - apply binary_normalize_not_nan.
Qed.

(** *** The order of [SFcompare] *)

Lemma SFcompare_antisym x y :
  SFcompare y x = option_map CompOpp (SFcompare x y).
Proof.
  destruct x as [sx | sx | | sx mx ex], y as [sy | sy | | sy my ey];
    simpl; try reflexivity;
    try (destruct sx; reflexivity); try (destruct sy; reflexivity);
    try (destruct sx, sy; reflexivity).
  destruct sx, sy; simpl; try reflexivity;
    rewrite (Z.compare_antisym ey ex);
    destruct (ey ?= ex); simpl; try reflexivity;
    rewrite (Pos.compare_cont_antisym mx my Eq); simpl;
    try rewrite CompOpp_involutive; reflexivity.
Qed.

Lemma SFcompare_refl x : is_nan x = false -> SFcompare x x = Some Eq.
Proof.
  destruct x as [sx | sx | | sx mx ex]; simpl; intros H;
    try reflexivity; try discriminate.
  - destruct sx; reflexivity.
  - rewrite Z.compare_refl, Pos.compare_cont_refl. destruct sx; reflexivity.
Qed.

Lemma fle_refl x : is_nan x = false -> fle x x = true.
Proof. intros H. unfold fle, SFleb. rewrite SFcompare_refl; auto. Qed.

Lemma fle_not_nan_l x y : fle x y = true -> is_nan x = false.
Proof. destruct x; simpl; auto; discriminate. Qed.

Lemma fle_not_nan_r x y : fle x y = true -> is_nan y = false.
Proof. destruct x, y; simpl; auto; discriminate. Qed.

Lemma SFcompare_not_nan x y :
  is_nan x = false -> is_nan y = false -> SFcompare x y <> None.
Proof.
  destruct x, y; simpl; intros; try discriminate.
Qed.

Lemma flt_false_fle x y :
  is_nan x = false -> is_nan y = false -> flt x y = false -> fle y x = true.
Proof.
  intros Hx Hy. unfold flt, fle, SFltb, SFleb.
  rewrite (SFcompare_antisym x y).
  pose proof (SFcompare_not_nan x y Hx Hy) as Hn.
  destruct (SFcompare x y) as [[ | | ] | ]; simpl; congruence.
Qed.

Lemma fle_flt_false x y : fle x y = true -> flt y x = false.
Proof.
  unfold flt, fle, SFltb, SFleb.
  rewrite (SFcompare_antisym x y).
  destruct (SFcompare x y) as [[ | | ] | ]; simpl; congruence.
Qed.

(** [glm::clamp] of anything but a NaN lies between its bounds. *)
Lemma clamp_in_range x lo hi :
  fle lo hi = true -> is_nan x = false ->
  fle lo (Glm.clamp x lo hi) = true /\ fle (Glm.clamp x lo hi) hi = true.
Proof.
  intros Hb Hx.
  pose proof (fle_not_nan_l _ _ Hb) as Hlo.
  pose proof (fle_not_nan_r _ _ Hb) as Hhi.
  unfold Glm.clamp, Glm.max, Glm.min; simpl.
  destruct (flt x lo) eqn:E1.
  - rewrite (fle_flt_false _ _ Hb). split; auto using fle_refl.
  - destruct (flt hi x) eqn:E2.
    + split; auto using fle_refl.
    + split; apply flt_false_fle; auto.
Qed.

(** What [glm::clamp] does with a NaN: both comparisons fail. *)
Lemma clamp_nan lo hi : Glm.clamp S754_nan lo hi = S754_nan.
Proof.
  unfold Glm.clamp, Glm.max, Glm.min; simpl. unfold flt, SFltb; simpl.
  destruct (SFcompare hi S754_nan) eqn:E; [ | reflexivity].
  destruct hi; discriminate.
Qed.

Lemma between_finite lo x hi :
  is_finite lo = true -> is_finite hi = true ->
  fle lo x = true -> fle x hi = true -> is_finite x = true.
Proof.
  destruct lo, hi, x; simpl; intros; try reflexivity; try discriminate;
  match goal with s : bool |- _ => destruct s; discriminate end.
Qed.

(** *** Transitivity *)

Import FloatOrder.

Lemma flt_rank x y :
  flt x y = true -> lex_lt (rank x) (rank y).
Proof.
  unfold flt, SFltb.
  destruct x as [sx | sx | | sx mx ex], y as [sy | sy | | sy my ey];
    simpl; try discriminate;
    try (destruct sx; simpl; try discriminate);
    try (destruct sy; simpl; try discriminate); try lia.
  all: change (Pos.compare_cont Eq mx my) with (mx ?= my)%positive.
  all: destruct (Z.compare_spec ex ey); try discriminate; try lia.
  all: destruct (Pos.compare_spec mx my); simpl; try discriminate; lia.
Qed.

Lemma rank_flt x y :
  is_nan x = false -> is_nan y = false ->
  lex_lt (rank x) (rank y) -> flt x y = true.
Proof.
  unfold flt, SFltb.
  destruct x as [sx | sx | | sx mx ex], y as [sy | sy | | sy my ey];
    simpl; try discriminate; intros _ _;
    try (destruct sx; simpl); try (destruct sy; simpl);
    try reflexivity; try lia.
  all: change (Pos.compare_cont Eq mx my) with (mx ?= my)%positive.
  all: destruct (Z.compare_spec ex ey); try reflexivity; try lia.
  all: destruct (Pos.compare_spec mx my); simpl; try reflexivity; lia.
Qed.

Lemma fle_rank x y :
  fle x y = true -> lex_lt (rank x) (rank y) \/ rank x = rank y.
Proof.
  unfold fle, SFleb.
  destruct x as [sx | sx | | sx mx ex], y as [sy | sy | | sy my ey];
    simpl; try discriminate;
    try (destruct sx; simpl; try discriminate);
    try (destruct sy; simpl; try discriminate);
    try (right; reflexivity); try (left; lia).
  all: change (Pos.compare_cont Eq mx my) with (mx ?= my)%positive.
  all: destruct (Z.compare_spec ex ey); try discriminate; try (left; lia).
  all: destruct (Pos.compare_spec mx my); simpl; try discriminate;
       try (left; lia); right; subst; reflexivity.
Qed.

Lemma flt_not_nan_l x y : flt x y = true -> is_nan x = false.
Proof. destruct x; simpl; auto; discriminate. Qed.

Lemma flt_not_nan_r x y : flt x y = true -> is_nan y = false.
Proof. destruct x, y; simpl; auto; discriminate. Qed.

(** [fle] then [flt]: the order of [SFcompare] is transitive. *)
Lemma fle_flt_trans x y z : fle x y = true -> flt y z = true -> flt x z = true.
Proof.
  intros Hxy Hyz.
  apply rank_flt; eauto using fle_not_nan_l, flt_not_nan_r.
  pose proof (fle_rank _ _ Hxy) as H1.
  pose proof (flt_rank _ _ Hyz) as H2.
  destruct H1 as [H1 | H1]; [ | rewrite H1; exact H2].
  unfold lex_lt in *.
  destruct (rank x) as [[a b] c], (rank y) as [[a' b'] c'],
           (rank z) as [[a'' b''] c'']. lia.
Qed.

End FloatFacts.

(** ** Rounding is monotone *)

Module RoundingFacts.
Import Rounding FloatFacts.

(** *** Binary digits *)

Lemma digits2_pos_bounds p :
  2 ^ (Zpos (digits2_pos p) - 1) <= Zpos p < 2 ^ Zpos (digits2_pos p).
Proof.
  induction p as [p IH | p IH | ]; cbn [digits2_pos].
  - rewrite Pos2Z.inj_succ.
    replace (Z.succ (Zpos (digits2_pos p)) - 1) with (Z.succ (Zpos (digits2_pos p) - 1)) by lia.
    rewrite !Z.pow_succ_r by lia. lia.
  - rewrite Pos2Z.inj_succ.
    replace (Z.succ (Zpos (digits2_pos p)) - 1) with (Z.succ (Zpos (digits2_pos p) - 1)) by lia.
    rewrite !Z.pow_succ_r by lia. lia.
  - cbn. lia.
Qed.

(** The number of digits is determined by the two powers around. *)
Lemma digits2_pos_unique p d :
  2 ^ (d - 1) <= Zpos p < 2 ^ d -> Zpos (digits2_pos p) = d.
Proof.
  intros [H1 H2].
  destruct (digits2_pos_bounds p) as [B1 B2].
  assert (Hd : 0 < d).
  { destruct (Z_lt_le_dec 0 d) as [ | Hn]; [assumption | ].
    rewrite Z.pow_neg_r in H1 by lia.
    destruct (Z.eq_dec d 0) as [-> | ]; [cbn in H2; lia | ].
    rewrite Z.pow_neg_r in H2 by lia. lia. }
  destruct (Z_lt_le_dec (Zpos (digits2_pos p)) d) as [Hlt | Hge].
  - assert (2 ^ Zpos (digits2_pos p) <= 2 ^ (d - 1))
      by (apply Z.pow_le_mono_r; lia). lia.
  - destruct (Z_lt_le_dec d (Zpos (digits2_pos p))) as [Hlt | Hle]; [ | lia].
    assert (2 ^ d <= 2 ^ (Zpos (digits2_pos p) - 1))
      by (apply Z.pow_le_mono_r; lia). lia.
Qed.

(** *** Right shifts keep the location of a fraction *)

Lemma shr_1_loc_of P Q :
  0 <= P -> 0 < Q ->
  shr_1 (shr_record_of_loc (P / Q) (loc_of P Q))
  = shr_record_of_loc (P / (2 * Q)) (loc_of P (2 * Q)).
Proof.
  intros HP HQ.
  assert (Hq : 0 <= P / Q) by (apply Z.div_pos; lia).
  pose proof (Z.mod_pos_bound P Q HQ) as Hr.
  pose proof (Z.div_mod P Q ltac:(lia)) as HPQ.
  pose proof (Z.mod_pos_bound (P / Q) 2 ltac:(lia)) as Hb.
  pose proof (Z.div_mod (P / Q) 2 ltac:(lia)) as Hq2.
  assert (Hdiv : P / (2 * Q) = P / Q / 2).
  { rewrite (Z.mul_comm 2 Q). rewrite Z.div_div by lia. reflexivity. }
  assert (Hmod : P mod (2 * Q) = (P / Q) mod 2 * Q + P mod Q).
  { symmetry. apply Z.mod_unique_pos with (q := P / Q / 2); nia. }
  (* what shr_1 computes *)
  assert (Hshr : forall r s,
             shr_1 (Build_shr_record (P / Q) r s)
             = Build_shr_record (P / Q / 2) (negb ((P / Q) mod 2 =? 0)) (r || s)).
  { intros r s. destruct (P / Q) as [ | [p | p | ] | p]; try lia; cbn [shr_1].
    - reflexivity.
    - rewrite Pos2Z.inj_xI.
      replace ((2 * Zpos p + 1) / 2) with (Zpos p) by (apply Z.div_unique with 1; lia).
      replace ((2 * Zpos p + 1) mod 2) with 1 by (apply Z.mod_unique with (Zpos p); lia).
      reflexivity.
    - rewrite Pos2Z.inj_xO.
      replace ((2 * Zpos p) / 2) with (Zpos p) by (apply Z.div_unique with 0; lia).
      replace ((2 * Zpos p) mod 2) with 0 by (apply Z.mod_unique with (Zpos p); lia).
      reflexivity.
    - reflexivity. }
  rewrite Hdiv.
  unfold loc_of at 2. rewrite Hmod.
  unfold loc_of.
  destruct (Z.eqb_spec (P mod Q) 0) as [E0 | N0];
    destruct (Z.eqb_spec ((P / Q) mod 2 * Q + P mod Q) 0) as [E1 | N1].
  - (* exact before and after *)
    cbn [shr_record_of_loc]. rewrite Hshr.
    assert ((P / Q) mod 2 = 0) by nia.
    rewrite H. reflexivity.
  - cbn [shr_record_of_loc]. rewrite Hshr.
    assert ((P / Q) mod 2 = 1) by nia.
    rewrite H, E0. cbn [Z.eqb negb orb].
    replace (2 * (1 * Q + 0) ?= 2 * Q) with Eq by (symmetry; apply Z.compare_eq_iff; lia).
    reflexivity.
  - nia.
  - destruct (Z.compare_spec (2 * (P mod Q)) Q) as [Hc | Hc | Hc];
      cbn [shr_record_of_loc]; rewrite Hshr; cbn [orb];
      destruct (Z.eqb_spec ((P / Q) mod 2) 0) as [Eb | Nb]; cbn [negb];
      try (assert (Eb1 : (P / Q) mod 2 = 1) by lia; rewrite Eb1);
      try rewrite Eb;
      match goal with
      | |- context [?a ?= ?b] =>
          destruct (Z.compare_spec a b); try nia; reflexivity
      end.
Qed.


Lemma iter_pos_shr_loc_of k : forall P Q,
  0 <= P -> 0 < Q ->
  iter_pos shr_1 k (shr_record_of_loc (P / Q) (loc_of P Q))
  = shr_record_of_loc (P / (2 ^ Zpos k * Q)) (loc_of P (2 ^ Zpos k * Q)).
Proof.
  induction k as [k IH | k IH | ]; intros P Q HP HQ; cbn [iter_pos].
  - rewrite shr_1_loc_of by assumption.
    rewrite IH by lia. rewrite IH by (try assumption; nia).
    assert (E : 2 ^ Zpos k~1 * Q = 2 ^ Zpos k * (2 ^ Zpos k * (2 * Q))).
    { replace (Zpos k~1) with (Zpos k + Zpos k + 1) by lia.
      rewrite !Z.pow_add_r by lia. rewrite Z.pow_1_r. ring. }
    rewrite E. reflexivity.
  - rewrite IH by lia. rewrite IH by (try assumption; nia).
    assert (E : 2 ^ Zpos k~0 * Q = 2 ^ Zpos k * (2 ^ Zpos k * Q)).
    { replace (Zpos k~0) with (Zpos k + Zpos k) by lia.
      rewrite !Z.pow_add_r by lia. ring. }
    rewrite E. reflexivity.
  - rewrite Z.pow_1_r. apply shr_1_loc_of; assumption.
Qed.

Lemma loc_of_shr_record_of_loc m l :
  loc_of_shr_record (shr_record_of_loc m l) = l.
Proof. destruct l as [ | [ | | ]]; reflexivity. Qed.

(** The first shift of [binary_round_aux], by [k >= 0] digits. *)
Lemma shr_loc_of P Q e k :
  0 <= P -> 0 < Q -> 0 <= k ->
  shr (shr_record_of_loc (P / Q) (loc_of P Q)) e k
  = (shr_record_of_loc (P / (2 ^ k * Q)) (loc_of P (2 ^ k * Q)), e + k).
Proof.
  intros HP HQ Hk. destruct k as [ | k | k]; try lia; cbn [shr].
  - rewrite Z.pow_0_r, Z.mul_1_l, Z.add_0_r. reflexivity.
  - rewrite iter_pos_shr_loc_of by assumption. reflexivity.
Qed.

(** *** Rounding to nearest even *)

Lemma rne_floor P Q :
  0 < Q -> P / Q <= rne P Q <= P / Q + 1.
Proof.
  intros HQ. unfold rne.
  destruct (loc_of P Q) as [ | [ | | ]]; cbn [round_nearest_even]; try lia.
  destruct (Z.even (P / Q)); lia.
Qed.

(** The rounded value is within one half of the fraction, and even when the
    fraction lies half-way. *)
Lemma rne_nearest P Q :
  0 < Q ->
  - Q <= 2 * (P - rne P Q * Q) <= Q /\
  (2 * (P - rne P Q * Q) = Q \/ 2 * (P - rne P Q * Q) = - Q ->
   Z.even (rne P Q) = true).
Proof.
  intros HQ.
  pose proof (Z.mod_pos_bound P Q HQ) as Hr.
  pose proof (Z.div_mod P Q ltac:(lia)) as HPQ.
  unfold rne, loc_of.
  destruct (Z.eqb_spec (P mod Q) 0) as [E0 | N0]; cbn [round_nearest_even].
  - split; [nia | ]. intros [H | H]; nia.
  - destruct (Z.compare_spec (2 * (P mod Q)) Q) as [Hc | Hc | Hc].
    + destruct (Z.even (P / Q)) eqn:Ev.
      * split; [nia | intros _; exact Ev].
      * split; [nia | intros _].
        rewrite Z.even_add, Ev. reflexivity.
    + split; [nia | ]. intros [H | H]; nia.
    + split; [nia | ]. intros [H | H]; nia.
Qed.

Lemma rne_mono P1 Q1 P2 Q2 :
  0 < Q1 -> 0 < Q2 -> P1 * Q2 <= P2 * Q1 -> rne P1 Q1 <= rne P2 Q2.
Proof.
  intros HQ1 HQ2 Hle.
  destruct (rne_nearest P1 Q1 HQ1) as [[L1 U1] T1].
  destruct (rne_nearest P2 Q2 HQ2) as [[L2 U2] T2].
  destruct (Z_le_gt_dec (rne P1 Q1) (rne P2 Q2)) as [ | Hgt]; [assumption | exfalso].
  set (a1 := rne P1 Q1) in *. set (a2 := rne P2 Q2) in *.
  (* a2 + 1 <= a1, hence both fractions are the tie a2 + 1/2 *)
  assert (Ha : a1 = a2 + 1).
  { assert (2 * P1 * Q2 >= (2 * a1 - 1) * Q1 * Q2) by nia.
    assert (2 * P2 * Q1 <= (2 * a2 + 1) * Q2 * Q1) by nia.
    assert ((2 * a1 - 1) * (Q1 * Q2) <= (2 * a2 + 1) * (Q1 * Q2)) by nia.
    assert (0 < Q1 * Q2) by nia.
    assert (2 * a1 - 1 <= 2 * a2 + 1) by nia. lia. }
  assert (Hq : 0 < Q1 * Q2) by nia.
  assert (E2 : 2 * (P2 - a2 * Q2) = Q2).
  { assert (2 * P1 * Q2 >= (2 * a2 + 1) * Q1 * Q2) by nia.
    assert (2 * P2 * Q1 >= (2 * a2 + 1) * Q2 * Q1) by nia.
    assert (Q1 * (2 * P2) >= Q1 * ((2 * a2 + 1) * Q2)) by nia.
    assert (2 * P2 >= (2 * a2 + 1) * Q2) by nia. nia. }
  assert (E1 : 2 * (P1 - a1 * Q1) = - Q1).
  { assert (2 * P1 * Q2 <= (2 * a2 + 1) * Q1 * Q2) by nia.
    assert (Q2 * (2 * P1) <= Q2 * ((2 * a2 + 1) * Q1)) by nia.
    assert (2 * P1 <= (2 * a2 + 1) * Q1) by nia. nia. }
  pose proof (T1 (or_intror E1)) as Ev1.
  pose proof (T2 (or_introl E2)) as Ev2.
  rewrite Ha, Z.even_add, Ev2 in Ev1. discriminate.
Qed.


(** *** [binary_round_aux] on a significand of at least 24 bits *)

Lemma fexp_24 x : -149 <= x - 24 -> fexp 24 128 x = x - 24.
Proof. intros H. unfold fexp, emin. lia. Qed.

Lemma Zdigits2_bounds q :
  0 < q -> 2 ^ (Zdigits2 q - 1) <= q < 2 ^ Zdigits2 q.
Proof.
  destruct q as [ | p | p]; try lia. intros _. apply digits2_pos_bounds.
Qed.

Lemma Zdigits2_unique q d :
  2 ^ (d - 1) <= q < 2 ^ d -> 0 < q -> Zdigits2 q = d.
Proof.
  destruct q as [ | p | p]; try lia. intros H _.
  apply digits2_pos_unique; assumption.
Qed.

Lemma binary_round_aux_24 s P Q e :
  0 <= P -> 0 < Q -> 2 ^ 23 <= P / Q ->
  let k := Zdigits2 (P / Q) - 24 in
  -149 <= e + k -> e + k + 1 <= 104 ->
  binary_round_aux 24 128 s (P / Q) e (loc_of P Q)
  = S754_finite s (Z.to_pos (snd (round24 P (2 ^ k * Q) (e + k))))
                  (fst (round24 P (2 ^ k * Q) (e + k))).
Proof.
  intros HP HQ Hq k Hlo Hhi.
  assert (Hq0 : 0 < P / Q) by lia.
  destruct (Zdigits2_bounds (P / Q) Hq0) as [D1 D2]. fold k in D1, D2.
  assert (Hk : 0 <= k).
  { destruct (Z_lt_le_dec k 0) as [Hn | ]; [ | assumption].
    assert (2 ^ (k + 24) <= 2 ^ 23) by (apply Z.pow_le_mono_r; lia).
    replace (Zdigits2 (P / Q)) with (k + 24) in D2 by (unfold k; lia). lia. }
  replace (Zdigits2 (P / Q)) with (k + 24) in D1, D2 by (unfold k; lia).
  assert (Hpow : 0 < 2 ^ k) by (apply Z.pow_pos_nonneg; lia).
  (* the shifted significand has exactly 24 bits *)
  assert (Hq' : 2 ^ 23 <= P / (2 ^ k * Q) < 2 ^ 24).
  { rewrite (Z.mul_comm (2 ^ k) Q), <- Z.div_div by lia.
    replace (k + 24 - 1) with (k + 23) in D1 by lia.
    rewrite Z.pow_add_r in D1, D2 by lia.
    split.
    - apply Z.div_le_lower_bound; lia.
    - apply Z.div_lt_upper_bound; lia. }
  unfold binary_round_aux, shr_fexp.
  rewrite fexp_24 by (fold k; unfold k; lia).
  replace (Zdigits2 (P / Q) + e - 24 - e) with k by (unfold k; lia).
  rewrite shr_loc_of by assumption.
  rewrite shr_record_of_loc_m, loc_of_shr_record_of_loc.
  fold (rne P (2 ^ k * Q)).
  pose proof (rne_floor P (2 ^ k * Q) ltac:(nia)) as Hrne.
  unfold round24. set (M0 := rne P (2 ^ k * Q)) in *.
  destruct (Z.eqb_spec M0 (2 ^ 24)) as [Ec | Nc]; cbn [fst snd].
  - (* the rounding carried into a 25th bit *)
    rewrite Ec.
    replace (Zdigits2 (2 ^ 24)) with 25 by reflexivity.
    rewrite fexp_24 by lia.
    replace (25 + (e + k) - 24 - (e + k)) with 1 by lia.
    cbn -[Z.pow Z.add Z.sub Z.leb].
    replace (e + k + 1 <=? 128 - 24) with true by (symmetry; apply Z.leb_le; lia).
    reflexivity.
  - assert (HM : 2 ^ 23 <= M0 < 2 ^ 24) by lia.
    rewrite (Zdigits2_unique M0 24) by (try lia; exact HM).
    rewrite fexp_24 by lia.
    replace (24 + (e + k) - 24 - (e + k)) with 0 by lia.
    cbn [shr shr_record_of_loc fst snd shr_m].
    destruct M0 as [ | m | m]; try lia.
    replace (e + k <=? 128 - 24) with true by (symmetry; apply Z.leb_le; lia).
    reflexivity.
Qed.

(** *** Rounding to 24 bits is monotone *)

Lemma round24_range P Q e :
  0 < Q -> 2 ^ 23 * Q <= P < 2 ^ 24 * Q ->
  2 ^ 23 <= snd (round24 P Q e) < 2 ^ 24 /\
  e <= fst (round24 P Q e) <= e + 1.
Proof.
  intros HQ [H1 H2].
  pose proof (rne_floor P Q HQ) as Hr.
  assert (2 ^ 23 <= P / Q) by (apply Z.div_le_lower_bound; lia).
  assert (P / Q < 2 ^ 24) by (apply Z.div_lt_upper_bound; lia).
  unfold round24.
  destruct (Z.eqb_spec (rne P Q) (2 ^ 24)); cbn [fst snd]; lia.
Qed.

Lemma round24_mono P1 Q1 e1 P2 Q2 e2 :
  0 < Q1 -> 0 < Q2 ->
  2 ^ 23 * Q1 <= P1 < 2 ^ 24 * Q1 ->
  2 ^ 23 * Q2 <= P2 < 2 ^ 24 * Q2 ->
  e1 < e2 \/ (e1 = e2 /\ P1 * Q2 <= P2 * Q1) ->
  lex_le (round24 P1 Q1 e1) (round24 P2 Q2 e2).
Proof.
  intros HQ1 HQ2 HN1 HN2 Hle.
  pose proof (round24_range P1 Q1 e1 HQ1 HN1) as [M1 E1].
  pose proof (round24_range P2 Q2 e2 HQ2 HN2) as [M2 E2].
  unfold lex_le.
  destruct Hle as [Hlt | [-> Hv]].
  - (* a smaller exponent: at most a carry brings the first result up to
       the least significand of the second exponent *)
    destruct (Z_lt_le_dec (fst (round24 P1 Q1 e1)) (fst (round24 P2 Q2 e2)))
      as [ | Hge]; [left; assumption | right].
    revert M1 E1 M2 E2 Hge. unfold round24.
    destruct (Z.eqb_spec (rne P1 Q1) (2 ^ 24));
      destruct (Z.eqb_spec (rne P2 Q2) (2 ^ 24)); cbn [fst snd]; lia.
  - pose proof (rne_mono P1 Q1 P2 Q2 HQ1 HQ2 Hv) as Hm.
    pose proof (rne_floor P2 Q2 HQ2) as Hr2.
    assert (P2 / Q2 < 2 ^ 24) by (apply Z.div_lt_upper_bound; lia).
    revert M1 E1 M2 E2. unfold round24.
    destruct (Z.eqb_spec (rne P1 Q1) (2 ^ 24));
      destruct (Z.eqb_spec (rne P2 Q2) (2 ^ 24)); cbn [fst snd]; lia.
Qed.


(** *** Conversion of an integer to float *)

Lemma Zdigits2_mono a b : 0 < a <= b -> Zdigits2 a <= Zdigits2 b.
Proof.
  intros [Ha Hab].
  destruct (Zdigits2_bounds a Ha) as [A1 A2].
  destruct (Zdigits2_bounds b ltac:(lia)) as [B1 B2].
  destruct (Z_le_gt_dec (Zdigits2 a) (Zdigits2 b)) as [ | Hgt]; [assumption | ].
  assert (2 ^ Zdigits2 b <= 2 ^ (Zdigits2 a - 1))
    by (apply Z.pow_le_mono_r; lia). lia.
Qed.

Lemma Zdigits2_pos q : 0 < q -> 0 < Zdigits2 q.
Proof. destruct q; cbn; lia. Qed.

Lemma Zdigits2_le q d : 0 < q < 2 ^ d -> Zdigits2 q <= d.
Proof.
  intros [H1 H2].
  destruct (Zdigits2_bounds q H1) as [B1 B2].
  destruct (Z_le_gt_dec (Zdigits2 q) d) as [ | Hgt]; [assumption | ].
  assert (0 <= d).
  { destruct (Z_lt_le_dec d 0); [ | assumption].
    rewrite Z.pow_neg_r in H2 by lia. lia. }
  assert (2 ^ d <= 2 ^ (Zdigits2 q - 1)) by (apply Z.pow_le_mono_r; lia). lia.
Qed.

Lemma pos_iter_xO m d : Zpos (Pos.iter xO m d) = Zpos m * 2 ^ Zpos d.
Proof.
  rewrite <- (Pos2Z.inj_pow 2 d), <- Pos2Z.inj_mul. f_equal.
  revert m. induction d as [ | d IH] using Pos.peano_ind; intros m.
  - cbn. lia.
  - rewrite Pos.iter_succ, IH, Pos.pow_succ_r. lia.
Qed.

(** The fraction [round_int] rounds is normalised. *)
Lemma round_int_normal n :
  0 < n ->
  let d := Zdigits2 n in
  0 < 2 ^ Z.max 0 (d - 24) /\
  2 ^ 23 * 2 ^ Z.max 0 (d - 24) <= n * 2 ^ Z.max 0 (24 - d)
    < 2 ^ 24 * 2 ^ Z.max 0 (d - 24).
Proof.
  intros Hn d.
  destruct (Zdigits2_bounds n Hn) as [B1 B2]. fold d in B1, B2.
  pose proof (Zdigits2_pos n Hn) as Hd. fold d in Hd.
  split; [apply Z.pow_pos_nonneg; lia | ].
  rewrite <- !Z.pow_add_r by lia.
  destruct (Z_le_gt_dec d 24) as [Hs | Hl].
  - replace (Z.max 0 (d - 24)) with 0 by lia.
    replace (Z.max 0 (24 - d)) with (24 - d) by lia.
    replace (23 + 0) with ((d - 1) + (24 - d)) by lia.
    replace (24 + 0) with (d + (24 - d)) by lia.
    rewrite !Z.pow_add_r by lia.
    assert (0 < 2 ^ (24 - d)) by (apply Z.pow_pos_nonneg; lia). nia.
  - replace (Z.max 0 (d - 24)) with (d - 24) by lia.
    replace (Z.max 0 (24 - d)) with 0 by lia.
    replace (23 + (d - 24)) with (d - 1) by lia.
    replace (24 + (d - 24)) with d by lia.
    rewrite Z.pow_0_r. lia.
Qed.

Lemma round_int_range n :
  0 < n ->
  2 ^ 23 <= snd (round_int n) < 2 ^ 24 /\
  Zdigits2 n - 24 <= fst (round_int n) <= Zdigits2 n - 23.
Proof.
  intros Hn. destruct (round_int_normal n Hn) as [HQ HN].
  pose proof (round24_range _ _ (Zdigits2 n - 24) HQ HN) as H.
  unfold round_int. lia.
Qed.

Lemma round_int_mono a b :
  0 < a <= b -> lex_le (round_int a) (round_int b).
Proof.
  intros [Ha Hab].
  destruct (round_int_normal a Ha) as [HQa HNa].
  destruct (round_int_normal b ltac:(lia)) as [HQb HNb].
  pose proof (Zdigits2_mono a b (conj Ha Hab)) as Hd.
  unfold round_int. apply round24_mono; try assumption.
  destruct (Z.eq_dec (Zdigits2 a) (Zdigits2 b)) as [E | N]; [right | left; lia].
  split; [lia | ]. rewrite E.
  assert (0 < 2 ^ Z.max 0 (24 - Zdigits2 b)) by (apply Z.pow_pos_nonneg; lia).
  nia.
Qed.

(** What [float_of_Z] computes on a positive integer below 2^63. *)
Lemma float_of_Z_pos n :
  0 < n < 2 ^ 63 ->
  float_of_Z n
  = S754_finite false (Z.to_pos (snd (round_int n))) (fst (round_int n)).
Proof.
  intros [Hn Hb].
  pose proof (Zdigits2_pos n Hn) as Hd.
  pose proof (Zdigits2_le n 63 (conj Hn Hb)) as Hd63.
  destruct (Zdigits2_bounds n Hn) as [B1 B2].
  unfold round_int.
  destruct n as [ | p | p]; try lia.
  unfold float_of_Z, binary_normalize, binary_round.
  change (Zpos (digits2_pos p)) with (Zdigits2 (Zpos p)).
  set (d := Zdigits2 (Zpos p)) in *.
  rewrite Z.add_0_r, fexp_24 by lia.
  unfold shl_align.
  destruct (Z_le_gt_dec 24 d) as [Hl | Hs].
  - (* at least 24 bits: the significand is shifted right *)
    replace (d - 24 - 0) with (d - 24) by lia.
    destruct (d - 24) as [ | dd | dd] eqn:Edd; try lia.
    + pose proof (binary_round_aux_24 false (Zpos p) 1 0) as H.
      rewrite Z.div_1_r in H. cbv zeta in H. fold d in H.
      rewrite Edd in H. unfold loc_of in H. rewrite Z.mod_1_r in H.
      cbn [Z.eqb] in H.
      rewrite H; try lia.
      * replace (Z.max 0 0) with 0 by lia.
        replace (Z.max 0 (24 - d)) with 0 by lia.
        rewrite Z.pow_0_r, !Z.mul_1_r, Z.add_0_l. reflexivity.
      * replace (d - 1) with 23 in B1 by lia. exact B1.
    + pose proof (binary_round_aux_24 false (Zpos p) 1 0) as H.
      rewrite Z.div_1_r in H. cbv zeta in H. fold d in H.
      rewrite Edd in H. unfold loc_of in H. rewrite Z.mod_1_r in H.
      cbn [Z.eqb] in H.
      rewrite H; try lia.
      * replace (Z.max 0 (Zpos dd)) with (Zpos dd) by lia.
        replace (Z.max 0 (24 - d)) with 0 by lia.
        rewrite Z.pow_0_r, !Z.mul_1_r, Z.add_0_l. reflexivity.
      * assert (2 ^ 23 <= 2 ^ (d - 1)) by (apply Z.pow_le_mono_r; lia). lia.
  - (* fewer than 24 bits: the significand is shifted left, exactly *)
    destruct (d - 24 - 0) as [ | dd | dd] eqn:Edd; try lia.
    assert (Hsh : Zpos (Pos.iter xO p dd) = Zpos p * 2 ^ (24 - d)).
    { rewrite pos_iter_xO. f_equal. f_equal. lia. }
    assert (Hbits : 2 ^ 23 <= Zpos (Pos.iter xO p dd) < 2 ^ 24).
    { assert (E23 : 2 ^ 23 = 2 ^ (d - 1) * 2 ^ (24 - d))
        by (rewrite <- Z.pow_add_r by lia; f_equal; lia).
      assert (E24 : 2 ^ 24 = 2 ^ d * 2 ^ (24 - d))
        by (rewrite <- Z.pow_add_r by lia; f_equal; lia).
      assert (0 < 2 ^ (24 - d)) by (apply Z.pow_pos_nonneg; lia).
      rewrite Hsh, E23, E24. nia. }
    pose proof (binary_round_aux_24 false (Zpos (Pos.iter xO p dd)) 1 (d - 24)) as H.
    rewrite Z.div_1_r in H. cbv zeta in H.
    rewrite (Zdigits2_unique _ 24) in H by (try lia; exact Hbits).
    unfold loc_of in H. rewrite Z.mod_1_r in H. cbn [Z.eqb] in H.
    replace (24 - 24) with 0 in H by lia.
    rewrite H; try lia.
    replace (Z.max 0 (d - 24)) with 0 by lia.
    replace (Z.max 0 (24 - d)) with (24 - d) by lia.
    rewrite Z.pow_0_r, !Z.mul_1_r, Z.add_0_r, Hsh. reflexivity.
Qed.


(** *** Division by the float 1e9 *)

Lemma float_giga : float_of_Z 1000000000 = S754_finite false 15625000 6.
Proof. reflexivity. Qed.

Lemma div_eucl_div_mod a b : Z.div_eucl a b = (a / b, a mod b).
Proof. unfold Z.div, Z.modulo. destruct (Z.div_eucl a b); reflexivity. Qed.

(** The quotient of a 24-bit significand by that of 1e9 has 24 or 25 bits. *)
Lemma giga_quotient m :
  2 ^ 23 <= m < 2 ^ 24 ->
  let k := Zdigits2 (m * 2 ^ 24 / giga_m) - 24 in
  2 ^ 23 <= m * 2 ^ 24 / giga_m /\
  (k = 0 \/ k = 1) /\ (k = 0 <-> m < giga_m) /\
  0 < 2 ^ k * giga_m /\
  2 ^ 23 * (2 ^ k * giga_m) <= m * 2 ^ 24 < 2 ^ 24 * (2 ^ k * giga_m).
Proof.
  intros [H1 H2] k. unfold giga_m in *.
  set (q := m * 2 ^ 24 / 15625000) in *.
  assert (Hq1 : 2 ^ 23 <= q) by (apply Z.div_le_lower_bound; lia).
  assert (Hq2 : q < 2 ^ 25) by (apply Z.div_lt_upper_bound; lia).
  pose proof (Z.div_mod (m * 2 ^ 24) 15625000 ltac:(lia)) as Hdm.
  pose proof (Z.mod_pos_bound (m * 2 ^ 24) 15625000 ltac:(lia)) as Hr.
  fold q in Hdm.
  split; [exact Hq1 | ].
  destruct (Z_lt_le_dec q (2 ^ 24)) as [Hlo | Hhi].
  - assert (Ek : k = 0).
    { unfold k. rewrite (Zdigits2_unique q 24); lia. }
    rewrite Ek. split; [left; reflexivity | ].
    split; [split; [intros _ | reflexivity] | ]; lia.
  - assert (Ek : k = 1).
    { unfold k. rewrite (Zdigits2_unique q 25); lia. }
    rewrite Ek. split; [right; reflexivity | ].
    split; [split; intros; lia | ]. lia.
Qed.

Lemma round_div_range e m :
  2 ^ 23 <= m < 2 ^ 24 ->
  2 ^ 23 <= snd (round_div (e, m)) < 2 ^ 24.
Proof.
  intros Hm. destruct (giga_quotient m Hm) as (_ & _ & _ & HQ & HN).
  unfold round_div. apply round24_range; assumption.
Qed.

Lemma round_div_mono e1 m1 e2 m2 :
  2 ^ 23 <= m1 < 2 ^ 24 -> 2 ^ 23 <= m2 < 2 ^ 24 ->
  lex_le (e1, m1) (e2, m2) ->
  lex_le (round_div (e1, m1)) (round_div (e2, m2)).
Proof.
  intros Hm1 Hm2 Hle.
  destruct (giga_quotient m1 Hm1) as (_ & Hk1 & Hi1 & HQ1 & HN1).
  destruct (giga_quotient m2 Hm2) as (_ & Hk2 & Hi2 & HQ2 & HN2).
  unfold round_div. apply round24_mono; try assumption.
  set (k1 := Zdigits2 (m1 * 2 ^ 24 / giga_m) - 24) in *.
  set (k2 := Zdigits2 (m2 * 2 ^ 24 / giga_m) - 24) in *.
  unfold lex_le in Hle. cbn [fst snd] in Hle.
  unfold giga_m in *.
  destruct Hle as [Hlt | [-> Hm]].
  - destruct (Z_lt_le_dec (e1 - 30 + k1) (e2 - 30 + k2)) as [ | Hge];
      [left; assumption | right].
    assert (k1 = 1 /\ k2 = 0 /\ e2 = e1 + 1) as (-> & -> & ->) by lia.
    split; [lia | ]. lia.
  - destruct Hk1 as [-> | ->], Hk2 as [-> | ->]; try lia;
      right; (split; [lia | nia]).
Qed.

(** What the division by 1e9 computes on a float with a 24-bit
    significand. *)
Lemma fdiv_giga e m :
  2 ^ 23 <= Zpos m < 2 ^ 24 -> -23 <= e <= 80 ->
  fdiv (S754_finite false m e) (float_of_Z 1000000000)
  = S754_finite false (Z.to_pos (snd (round_div (e, Zpos m))))
                      (fst (round_div (e, Zpos m))).
Proof.
  intros Hm He. rewrite float_giga.
  destruct (giga_quotient (Zpos m) Hm) as (Hq & Hk & _ & _ & _).
  unfold fdiv, SFdiv, SFdiv_core_binary.
  rewrite (Zdigits2_unique (Zpos m) 24) by (try lia; exact Hm).
  replace (Zdigits2 15625000) with 24 by reflexivity.
  replace (24 + e - (24 + 6)) with (e - 6) by lia.
  rewrite fexp_24 by lia.
  replace (Z.min (e - 6 - 24) (e - 6)) with (e - 30) by lia.
  replace (e - 6 - (e - 30)) with 24 by lia.
  rewrite Z.shiftl_mul_pow2 by lia.
  rewrite div_eucl_div_mod.
  change (new_location 15625000 (Zpos m * 2 ^ 24 mod 15625000))
    with (loc_of (Zpos m * 2 ^ 24) giga_m).
  change (Zpos m * 2 ^ 24 / 15625000) with (Zpos m * 2 ^ 24 / giga_m).
  cbn [xorb].
  rewrite binary_round_aux_24; try lia; try exact Hq; try reflexivity.
Qed.

(** *** The elapsed time in seconds is monotone in the tick count *)

Lemma fle_finite_lex m1 e1 m2 e2 :
  lex_le (e1, Zpos m1) (e2, Zpos m2) ->
  fle (S754_finite false m1 e1) (S754_finite false m2 e2) = true.
Proof.
  unfold lex_le; cbn [fst snd]. intros H.
  unfold fle, SFleb, SFcompare.
  change (Pos.compare_cont Eq m1 m2) with (m1 ?= m2)%positive.
  destruct (Z.compare_spec e1 e2); try lia; try reflexivity.
  destruct (Pos.compare_spec m1 m2); try lia; reflexivity.
Qed.

Lemma elapsed_seconds_pos n :
  0 < n < 2 ^ 63 ->
  fdiv (float_of_Z n) (float_of_Z 1000000000)
  = S754_finite false
      (Z.to_pos (snd (round_div (fst (round_int n), snd (round_int n)))))
      (fst (round_div (fst (round_int n), snd (round_int n)))).
Proof.
  intros Hn.
  destruct (round_int_range n ltac:(lia)) as [HM HE].
  destruct (Zdigits2_bounds n ltac:(lia)) as [B1 B2].
  pose proof (Zdigits2_pos n ltac:(lia)) as Hd.
  pose proof (Zdigits2_le n 63 Hn) as Hd63.
  rewrite float_of_Z_pos by exact Hn.
  rewrite fdiv_giga.
  - rewrite Z2Pos.id by lia. reflexivity.
  - rewrite Z2Pos.id by lia. exact HM.
  - lia.
Qed.

Lemma elapsed_seconds_mono_ticks a b :
  0 <= a <= b -> b < 2 ^ 63 ->
  fle (fdiv (float_of_Z a) (float_of_Z 1000000000))
      (fdiv (float_of_Z b) (float_of_Z 1000000000)) = true.
Proof.
  intros [Ha Hab] Hb.
  destruct (Z.eq_dec b 0) as [-> | Nb].
  - replace a with 0 by lia. reflexivity.
  - rewrite (elapsed_seconds_pos b) by lia.
    destruct (Z.eq_dec a 0) as [-> | Na]; [reflexivity | ].
    rewrite (elapsed_seconds_pos a) by lia.
    destruct (round_int_range a ltac:(lia)) as [HMa _].
    destruct (round_int_range b ltac:(lia)) as [HMb _].
    pose proof (round_div_range (fst (round_int a)) _ HMa) as Ra.
    pose proof (round_div_range (fst (round_int b)) _ HMb) as Rb.
    apply fle_finite_lex. rewrite !Z2Pos.id by lia.
    change (lex_le (round_div (fst (round_int a), snd (round_int a)))
                   (round_div (fst (round_int b), snd (round_int b)))).
    apply round_div_mono; try assumption.
    change (lex_le (round_int a) (round_int b)).
    apply round_int_mono. lia.
Qed.

End RoundingFacts.

(** ** The camera controller *)

Module ControllerFacts.
Import Controller ControllerInv FloatFacts.

Lemma orbit_inv_initial : orbit_inv initial.
Proof. repeat split. Qed.

Lemma orbit_inv_radius_finite c : orbit_inv c -> is_finite (radius c) = true.
Proof.
  intros [(Hmin & Hmax & _) Hr].
  unfold in_orbit_range in Hr. apply andb_true_iff in Hr as [H1 H2].
  rewrite Hmin in H1. rewrite Hmax in H2.
  eapply between_finite; try eassumption; reflexivity.
Qed.

Lemma orbit_inv_set_radius c v :
  orbit_inv c ->
  fle (minRadius initial) v = true -> fle v (maxRadius initial) = true ->
  orbit_inv (set_radius c v).
Proof.
  intros [(Hmin & Hmax & Hz) _] H1 H2. split.
  - repeat split; assumption.
  - unfold in_orbit_range; simpl. rewrite Hmin, Hmax, H1, H2. reflexivity.
Qed.

Lemma orbit_inv_same_radius c c' :
  orbit_inv c -> radius c' = radius c -> minRadius c' = minRadius c ->
  maxRadius c' = maxRadius c -> zoomSpeed c' = zoomSpeed c -> orbit_inv c'.
Proof.
  intros [(Hmin & Hmax & Hz) Hr] E1 E2 E3 E4. split.
  - unfold fixed_fields. rewrite E2, E3, E4. auto.
  - unfold in_orbit_range in *. rewrite E1, E2, E3. exact Hr.
Qed.

Lemma processMouseMove_orbit_inv c x y :
  orbit_inv c -> orbit_inv (processMouseMove c x y).
Proof.
  intros H. unfold processMouseMove.
  destruct (negb (dragging c)); exact H.
Qed.

Lemma processMouseButton_orbit_inv c b a cx cy :
  orbit_inv c -> orbit_inv (processMouseButton c b a cx cy).
Proof.
  intros H. unfold processMouseButton.
  destruct (b =? _); [ | exact H].
  destruct (a =? GLFW_PRESS); [ | destruct (a =? GLFW_RELEASE)]; exact H.
Qed.

Lemma processScroll_orbit_inv c xo yo :
  orbit_inv c -> is_nan yo = false -> orbit_inv (processScroll c xo yo).
Proof.
  intros H Hy.
  pose proof (orbit_inv_radius_finite c H) as Hfin.
  destruct H as [(Hmin & Hmax & Hz) Hr].
  assert (Hx : is_nan (fsub (radius c)
                         (fmul (float_of_double yo) (zoomSpeed c))) = false).
  { apply fsub_finite_not_nan; auto.
    rewrite Hz. apply fmul_finite_not_nan.
    apply float_of_double_not_nan; assumption. }
  destruct (clamp_in_range _ (minRadius c) (maxRadius c)
              ltac:(rewrite Hmin, Hmax; reflexivity) Hx) as [H1 H2].
  unfold processScroll. split.
  - repeat split; assumption.
  - unfold in_orbit_range.
    apply andb_true_intro. split; [exact H1 | exact H2].
Qed.

Lemma apply_preset_orbit_inv c p : orbit_inv c -> orbit_inv (apply_preset c p).
Proof.
  intros H. unfold apply_preset.
  destruct (p =? 0); [ | destruct (p =? 1); [ | destruct (p =? 2); auto]].
  - eapply orbit_inv_same_radius;
      [apply (orbit_inv_set_radius c radius0 H); reflexivity | .. ]; reflexivity.
  - eapply orbit_inv_same_radius;
      [apply (orbit_inv_set_radius c (float_of_Z 80000000000) H); reflexivity
      | .. ]; reflexivity.
  - eapply orbit_inv_same_radius;
      [apply (orbit_inv_set_radius c (float_of_Z 30000000000) H); reflexivity
      | .. ]; reflexivity.
Qed.

Lemma processKey_orbit_inv st k sc a m :
  orbit_inv (fst st) -> orbit_inv (fst (processKey st k sc a m)).
Proof.
  destruct st as [c p]. simpl. intros H.
  destruct (a =? GLFW_PRESS); auto. simpl.
  eapply orbit_inv_same_radius with
    (c := fst (if k =? GLFW_KEY_R
               then (set_elevation (set_azimuth (set_radius c radius0) fzero) half_pi, p)
               else if k =? GLFW_KEY_P
                    then (apply_preset c (Z.rem (p + 1) 3), Z.rem (p + 1) 3)
                    else (c, p))); try reflexivity.
  destruct (k =? GLFW_KEY_R); [ | destruct (k =? GLFW_KEY_P)]; simpl; auto.
  - eapply orbit_inv_same_radius;
      [apply (orbit_inv_set_radius c radius0 H); reflexivity | .. ]; reflexivity.
  - apply apply_preset_orbit_inv; assumption.
Qed.

Lemma dispatch_orbit_inv st ev :
  numeric_event ev = true -> orbit_inv (fst st) -> orbit_inv (fst (dispatch st ev)).
Proof.
  intros Hn H. destruct ev; simpl.
  - apply processMouseMove_orbit_inv; assumption.
  - apply processMouseButton_orbit_inv; assumption.
  - apply processScroll_orbit_inv; auto.
    simpl in Hn. destruct (is_nan yoffset); [discriminate | reflexivity].
  - apply processKey_orbit_inv; assumption.
Qed.

Lemma dispatch_all_orbit_inv evs : forall st,
  forallb numeric_event evs = true -> orbit_inv (fst st) ->
  orbit_inv (fst (dispatch_all st evs)).
Proof.
  induction evs as [ | ev evs IH]; intros st Hn H; simpl; auto.
  simpl in Hn. apply andb_true_iff in Hn as [Hev Hrest].
  apply IH; auto using dispatch_orbit_inv.
Qed.

(** C10. With no drag in progress, [processMouseMove] returns the controller
    it was given: azimuth, elevation, radius, [lastX], [lastY] and the moving
    flag keep their values, whatever the cursor position. *)
Theorem processMouseMove_not_dragging (c : CudaCameraController) (x y : double) :
  dragging c = false -> processMouseMove c x y = c.
Proof.
  intros H. unfold processMouseMove. rewrite H. reflexivity.
Qed.

Lemma processMouseMove_not_dragging_witness :
  dragging initial = false /\
  processMouseMove initial (double_of_Z 640) S754_nan = initial.
Proof.
  split; [reflexivity | ].
  apply (processMouseMove_not_dragging initial (double_of_Z 640) S754_nan).
  reflexivity.
Defined.

(** C9, as the code has it.  From the initial controller, after any sequence
    of callback events whose scroll offsets are numbers, the radius lies
    between [minRadius] and [maxRadius], and these are still 1e10 and
    1e12. *)
Theorem radius_stays_in_orbit_range (evs : list Event) :
  forallb numeric_event evs = true ->
  let c := fst (dispatch_all (initial, 0) evs) in
  minRadius c = float_of_Z (10 ^ 10) /\
  maxRadius c = float_of_Z (10 ^ 12) /\
  fle (minRadius c) (radius c) = true /\
  fle (radius c) (maxRadius c) = true.
Proof.
  intros Hn c.
  destruct (dispatch_all_orbit_inv evs (initial, 0) Hn orbit_inv_initial)
    as [(Hmin & Hmax & _) Hr].
  fold c in Hmin, Hmax, Hr.
  unfold in_orbit_range in Hr. apply andb_true_iff in Hr as [H1 H2].
  repeat split; assumption.
Qed.

Lemma radius_stays_in_orbit_range_witness :
  forallb numeric_event sample_events = true /\
  let c := fst (dispatch_all (initial, 0) sample_events) in
  minRadius c = float_of_Z (10 ^ 10) /\
  maxRadius c = float_of_Z (10 ^ 12) /\
  fle (minRadius c) (radius c) = true /\
  fle (radius c) (maxRadius c) = true.
Proof.
  split; [reflexivity | ].
  apply (radius_stays_in_orbit_range sample_events). reflexivity.
Defined.

(** C9 as stated fails: a scroll whose offset is a NaN turns the radius into
    a NaN, which [glm::clamp] passes through, and a NaN is not within the
    range. *)
Lemma scroll_nan_leaves_orbit_range :
  radius (processScroll initial (S754_zero false) S754_nan) = S754_nan /\
  in_orbit_range (processScroll initial (S754_zero false) S754_nan) = false.
Proof. split; reflexivity. Qed.

End ControllerFacts.

(** ** The per-ray state machine *)

Module KernelFacts.
Import Kernel FloatFacts SampleRays.

Section IntegratorFacts.

Variable advance : CudaRay -> CudaRay.
Variable crossesPlane : AccretionDisk -> CudaRay -> bool.
Variable disk : AccretionDisk.
Variable blackHole : BlackHole.

Local Abbreviation classify := (classify crossesPlane disk blackHole).
Local Abbreviation integrate := (integrate advance crossesPlane disk blackHole).
Local Abbreviation traceRay := (traceRay advance crossesPlane disk blackHole).

(** A terminal classification ends the loop at once. *)
Lemma integrate_terminal budget steps ray :
  classify ray <> Active -> integrate budget steps ray = (classify ray, ray, steps).
Proof.
  intros H. destruct budget; simpl; destruct (classify ray); congruence.
Qed.

(** The loop stops in a terminal state, within its budget, at the ray
    reached by that many steps. *)
Lemma integrate_bounded budget : forall steps ray,
  0 <= steps ->
  let '(st, ray', n) := integrate budget steps ray in
  st <> Active /\ steps <= n <= steps + Z.of_nat budget /\
  ray' = Nat.iter (Z.to_nat (n - steps)) advance ray.
Proof.
  induction budget as [ | budget IH]; intros steps ray Hs.
  - simpl. destruct (classify ray); simpl;
      (split; [discriminate | split; [lia | ]]);
      rewrite Z.sub_diag; reflexivity.
  - cbn [Kernel.integrate]. destruct (classify ray) eqn:E;
      try (split; [discriminate | split; [lia | ]];
           rewrite Z.sub_diag; reflexivity).
    specialize (IH (steps + 1) (advance ray) ltac:(lia)).
    destruct (integrate budget (steps + 1) (advance ray)) as [[st ray'] n].
    destruct IH as (H1 & H2 & H3). split; [exact H1 | split; [lia | ]].
    rewrite H3.
    replace (Z.to_nat (n - steps)) with (S (Z.to_nat (n - (steps + 1)))) by lia.
    rewrite Nat.iter_succ_r. reflexivity.
Qed.

(** The loop run with any cap [cap] on the number of steps. *)
Lemma integrate_capped (cap : Z) (ray : CudaRay) :
  0 <= cap ->
  let '(st, ray', n) := integrate (Z.to_nat cap) 0 ray in
  0 <= n <= cap /\
  ray' = Nat.iter (Z.to_nat n) advance ray /\
  (st = Escaped \/ st = Captured \/ st = DiskHit \/ st = StepLimitReached) /\
  (resolve st = Escaped \/ resolve st = Captured \/ resolve st = DiskHit).
Proof.
  intros Hcap.
  pose proof (integrate_bounded (Z.to_nat cap) 0 ray (Z.le_refl 0)) as H.
  destruct (integrate (Z.to_nat cap) 0 ray) as [[st ray'] n].
  destruct H as (H1 & H2 & H3).
  rewrite Z.sub_0_r in H3.
  rewrite Z2Nat.id in H2 by exact Hcap.
  split; [lia | split; [exact H3 | ]].
  destruct st; try congruence; simpl; auto.
Qed.

Lemma MAX_RAY_STEPS_nonneg : 0 <= MAX_RAY_STEPS.
Proof. discriminate. Qed.

(** C1. Every ray is traced to the end: the loop returns after at most
    [MAX_RAY_STEPS] = 100000 integration steps, in one of the terminal states
    Escaped, Captured, DiskHit or StepLimitReached, and the last of these
    resolves to Escaped. *)
Theorem every_ray_terminates (ray : CudaRay) :
  MAX_RAY_STEPS = 100000 /\
  let '(st, ray', n) := traceRay ray in
  0 <= n <= MAX_RAY_STEPS /\
  ray' = Nat.iter (Z.to_nat n) advance ray /\
  (st = Escaped \/ st = Captured \/ st = DiskHit \/ st = StepLimitReached) /\
  (resolve st = Escaped \/ resolve st = Captured \/ resolve st = DiskHit).
Proof.
  split; [reflexivity | ].
  exact (integrate_capped MAX_RAY_STEPS ray MAX_RAY_STEPS_nonneg).
Qed.

End IntegratorFacts.

(** A ray that stays Active is ended by the cap, after 100000 steps. *)
Example parked_ray_hits_the_cap :
  traceRay (fun ray => ray) within_thickness
    Renderer.session_disk Renderer.session_blackHole parked_ray
  = (StepLimitReached, parked_ray, 100000).
Proof. vm_compute. reflexivity. Qed.

End KernelFacts.

(** ** The renderer *)

Module RendererFacts.
Import Controller Renderer Physics SampleSession.

Lemma CudaRenderer_new_fields env w h r :
  CudaRenderer_new env w h = Done r ->
  width r = w /\ height r = h /\
  disk r = session_disk /\ blackHole r = session_blackHole /\
  cameraController r = initial.
Proof.
  unfold CudaRenderer_new.
  destruct (initOpenGL env); try discriminate.
  destruct (initCUDA env); try discriminate.
  intros H. injection H as <-. repeat split.
Qed.


Section RunFacts.

Variable libm : Libm.
Variable kernel : LaunchArgs -> nat -> float4.

Local Abbreviation iteration := (iteration libm kernel).
Local Abbreviation run_loop := (run_loop libm kernel).
Local Abbreviation run := (run libm kernel).

(** *** The callbacks touch the camera controller only *)

Lemma on_event_renderer p ev :
  width (renderer (on_event p ev)) = width (renderer p) /\
  height (renderer (on_event p ev)) = height (renderer p) /\
  disk (renderer (on_event p ev)) = disk (renderer p) /\
  blackHole (renderer (on_event p ev)) = blackHole (renderer p).
Proof. repeat split. Qed.

Lemma pollEvents_renderer p env :
  width (renderer (pollEvents p env)) = width (renderer p) /\
  height (renderer (pollEvents p env)) = height (renderer p) /\
  disk (renderer (pollEvents p env)) = disk (renderer p) /\
  blackHole (renderer (pollEvents p env)) = blackHole (renderer p).
Proof.
  unfold pollEvents. cbn [renderer set_shouldClose].
  generalize (fe_events env) as evs. intros evs. revert p.
  induction evs as [ | ev evs IH]; intros p; cbn [fold_left].
  - repeat split.
  - destruct (IH (on_event p ev)) as (H1 & H2 & H3 & H4).
    destruct (on_event_renderer p ev) as (E1 & E2 & E3 & E4).
    rewrite H1, H2, H3, H4. auto.
Qed.

(** What one iteration launches and what it leaves in the renderer. *)
Lemma iteration_params startTime p env :
  let '(p', fr, _) := iteration startTime p env in
  la_disk (fr_args fr) = disk (renderer p) /\
  la_blackHole (fr_args fr) = blackHole (renderer p) /\
  la_width (fr_args fr) = width (renderer p) /\
  la_height (fr_args fr) = height (renderer p) /\
  la_time (fr_args fr) = elapsed_seconds startTime (fe_now env) /\
  width (renderer p') = width (renderer p) /\
  height (renderer p') = height (renderer p) /\
  disk (renderer p') = disk (renderer p) /\
  blackHole (renderer p') = blackHole (renderer p).
Proof.
  destruct (pollEvents_renderer p env) as (E1 & E2 & E3 & E4).
  unfold Renderer.iteration.
  destruct (fe_escape env), (fe_sync_ok env), (fe_map_ok env),
    (fe_array_ok env), (fe_copy_ok env), (fe_unmap_ok env);
    cbn [negb fr_args la_disk la_blackHole la_width la_height la_time
         renderer set_device set_shouldClose];
    rewrite E1, E2, E3, E4; repeat split.
Qed.

(** The buffer handed over is the finished frame of the launch. *)
Lemma iteration_handoff startTime p env :
  let '(_, fr, _) := iteration startTime p env in
  forall buf pending,
    fr_handoff fr = Some (buf, pending) ->
    pending = None /\ buf = frame_pixels kernel (fr_args fr) /\
    forall shown, fr_shown fr = Some shown -> shown = buf.
Proof.
  unfold Renderer.iteration.
  destruct (fe_escape env), (fe_sync_ok env), (fe_map_ok env),
    (fe_array_ok env), (fe_copy_ok env), (fe_unmap_ok env);
    cbn [negb fr_handoff fr_args fr_shown]; intros buf pending H;
    try discriminate; injection H as <- <-;
    (split; [reflexivity | split; [reflexivity | ]]);
    intros shown Hs; try discriminate; injection Hs as <-; reflexivity.
Qed.

Section LoopInvariant.

Variable startTime : Z.
Variable P : FrameRecord -> Prop.
Variable Inv : Program -> Prop.
Hypothesis step : forall p env,
  Inv p ->
  let '(p', fr, _) := iteration startTime p env in P fr /\ Inv p'.

(** A property of the frame records that every iteration establishes from
    an invariant of the program state holds for all frames of the loop. *)
Lemma run_loop_frames envs : forall p,
  Inv p -> Forall P (frames (run_loop startTime p envs)).
Proof.
  induction envs as [ | env envs IH]; intros p Hp; cbn [Renderer.run_loop].
  - destruct (shouldClose p); constructor.
  - destruct (shouldClose p); [constructor | ].
    pose proof (step p env Hp) as Hs.
    destruct (iteration startTime p env) as [[p' fr] [status | ]].
    + constructor; [tauto | constructor].
    + destruct Hs as [Hfr Hp'].
      specialize (IH p' Hp').
      destruct (run_loop startTime p' envs) as [[frs ending] pf].
      constructor; assumption.
Qed.

End LoopInvariant.

Lemma run_frames_params r garbage startTime envs :
  Forall (fun fr => la_disk (fr_args fr) = disk r /\
                    la_blackHole (fr_args fr) = blackHole r /\
                    la_width (fr_args fr) = width r /\
                    la_height (fr_args fr) = height r)
         (frames (run r garbage startTime envs)).
Proof.
  unfold Renderer.run.
  apply run_loop_frames with
    (Inv := fun p => disk (renderer p) = disk r /\
                     blackHole (renderer p) = blackHole r /\
                     width (renderer p) = width r /\
                     height (renderer p) = height r).
  - intros p env (H1 & H2 & H3 & H4).
    pose proof (iteration_params startTime p env) as Hi.
    destruct (iteration startTime p env) as [[p' fr] st].
    destruct Hi as (A1 & A2 & A3 & A4 & _ & B1 & B2 & B3 & B4).
    repeat split; congruence.
  - repeat split.
Qed.

(** C6. In every frame of a session the disk and the black hole passed to
    the kernel are the ones the constructor assigned. *)
Theorem session_parameters_never_change
    (env : InitEnv) (w h : Z) (r : CudaRenderer) (garbage : list float4)
    (startTime : Z) (envs : list FrameEnv) :
  CudaRenderer_new env w h = Done r ->
  disk r = session_disk /\ blackHole r = session_blackHole /\
  Forall (fun fr => la_disk (fr_args fr) = session_disk /\
                    la_blackHole (fr_args fr) = session_blackHole)
         (frames (run r garbage startTime envs)).
Proof.
  intros Hnew.
  destruct (CudaRenderer_new_fields env w h r Hnew) as (_ & _ & Hd & Hb & _).
  split; [exact Hd | split; [exact Hb | ]].
  eapply Forall_impl; [ | apply run_frames_params].
  intros fr (H1 & H2 & _). rewrite <- Hd, <- Hb. auto.
Qed.

(** C2. No invalid configuration reaches a frame: the constructor takes the
    window size only, and in every frame of a session the disk passed to the
    kernel has innerRadius < outerRadius and the black hole has mass > 0. *)
Theorem session_parameters_valid
    (env : InitEnv) (w h : Z) (r : CudaRenderer) (garbage : list float4)
    (startTime : Z) (envs : list FrameEnv) :
  CudaRenderer_new env w h = Done r ->
  Forall (fun fr =>
            flt (innerRadius (la_disk (fr_args fr)))
                (outerRadius (la_disk (fr_args fr))) = true /\
            flt fzero (mass (la_blackHole (fr_args fr))) = true)
         (frames (run r garbage startTime envs)).
Proof.
  intros Hnew.
  destruct (CudaRenderer_new_fields env w h r Hnew) as (_ & _ & Hd & Hb & _).
  eapply Forall_impl; [ | apply run_frames_params].
  intros fr (H1 & H2 & _). rewrite H1, H2, Hd, Hb. split; reflexivity.
Qed.

(** C7. Whenever a frame is handed to the display, no kernel is running any
    more and the buffer copied into the texture is the finished frame of that
    iteration's launch, all width x height pixels of it; the texture shown by
    the buffer swap is that frame. *)
Theorem handoff_is_complete_frame
    (r : CudaRenderer) (garbage : list float4) (startTime : Z)
    (envs : list FrameEnv) :
  Forall (fun fr =>
            forall buf pending,
              fr_handoff fr = Some (buf, pending) ->
              pending = None /\
              buf = frame_pixels kernel (fr_args fr) /\
              List.length buf = Z.to_nat (width r * height r) /\
              forall shown, fr_shown fr = Some shown -> shown = buf)
         (frames (run r garbage startTime envs)).
Proof.
  assert (H : Forall (fun fr =>
             (la_width (fr_args fr) = width r /\
              la_height (fr_args fr) = height r) /\
             forall buf pending,
               fr_handoff fr = Some (buf, pending) ->
               pending = None /\ buf = frame_pixels kernel (fr_args fr) /\
               forall shown, fr_shown fr = Some shown -> shown = buf)
            (frames (run r garbage startTime envs))).
  { unfold Renderer.run.
    apply run_loop_frames with
      (Inv := fun p => width (renderer p) = width r /\
                       height (renderer p) = height r).
    - intros p env (H3 & H4).
      pose proof (iteration_params startTime p env) as Hi.
      pose proof (iteration_handoff startTime p env) as Hh.
      destruct (iteration startTime p env) as [[p' fr] st].
      destruct Hi as (_ & _ & A3 & A4 & _ & B1 & B2 & _).
      split; [split; [split; congruence | exact Hh] | split; congruence].
    - split; reflexivity. }
  eapply Forall_impl; [ | exact H].
  intros fr [[Hw Hh] Hf] buf pending Hb.
  destruct (Hf buf pending Hb) as (H1 & H2 & H3).
  split; [exact H1 | split; [exact H2 | split; [ | exact H3]]].
  rewrite H2. unfold frame_pixels, pixel_count.
  rewrite List.length_map, List.length_seq, Hw, Hh. reflexivity.
Qed.

End RunFacts.


(** Without the synchronisation the copy could see a frame in the making:
    when the launch returns with the even pixels stored and the odd ones
    not, the buffer differs from the finished frame. *)
Example launch_alone_is_partial :
  let a := mkLaunchArgs (getCamera sample_libm initial 4 3) session_disk
             session_blackHole 4 3 (float_of_Z 1) in
  let d := launchPhotorealisticKernel sample_kernel
             (mkDevice (repeat black_pixel 12) None []) a Nat.even in
  d_output d <> frame_pixels sample_kernel a /\
  d_output (cudaDeviceSynchronize sample_kernel d) = frame_pixels sample_kernel a.
Proof.
  split; [ | reflexivity].
  vm_compute. discriminate.
Qed.

(** *** The sample session *)

Lemma session_parameters_never_change_witness :
  CudaRenderer_new all_ok 1200 900 = Done sample_renderer /\
  Forall (fun fr => la_disk (fr_args fr) = session_disk /\
                    la_blackHole (fr_args fr) = session_blackHole)
         (frames (run sample_libm sample_kernel sample_renderer [] 1000000000
                    sample_envs)).
Proof.
  split; [reflexivity | ].
  apply (session_parameters_never_change sample_libm sample_kernel all_ok
           1200 900 sample_renderer [] 1000000000 sample_envs).
  reflexivity.
Defined.

Lemma session_parameters_valid_witness :
  CudaRenderer_new all_ok 1200 900 = Done sample_renderer /\
  Forall (fun fr =>
            flt (innerRadius (la_disk (fr_args fr)))
                (outerRadius (la_disk (fr_args fr))) = true /\
            flt fzero (mass (la_blackHole (fr_args fr))) = true)
         (frames (run sample_libm sample_kernel sample_renderer [] 1000000000
                    sample_envs)).
Proof.
  split; [reflexivity | ].
  apply (session_parameters_valid sample_libm sample_kernel all_ok
           1200 900 sample_renderer [] 1000000000 sample_envs).
  reflexivity.
Defined.

(** *** The Schwarzschild radius *)




End RendererFacts.

(** ** The camera basis *)

Module CameraFacts.
Import RealScalar CameraSpec.
Local Open Scope R_scope.

Local Abbreviation vec := (Glm.vec3 R).

Ltac vec_ring :=
  unfold Glm.dot, Glm.cross, Glm.vscale, Glm.vsub; cbn; ring.

Lemma dot_scale_l (a b : vec) k : Glm.dot (Glm.vscale a k) b = k * Glm.dot a b.
Proof. vec_ring. Qed.

Lemma dot_scale_r (a b : vec) k : Glm.dot a (Glm.vscale b k) = k * Glm.dot a b.
Proof. vec_ring. Qed.

Lemma dot_comm (a b : vec) : Glm.dot a b = Glm.dot b a.
Proof. vec_ring. Qed.

Lemma cross_orth_l (a b : vec) : Glm.dot (Glm.cross a b) a = 0.
Proof. vec_ring. Qed.

Lemma cross_orth_r (a b : vec) : Glm.dot (Glm.cross a b) b = 0.
Proof. vec_ring. Qed.

(** Lagrange's identity. *)
Lemma cross_norm (a b : vec) :
  Glm.dot (Glm.cross a b) (Glm.cross a b)
  = Glm.dot a a * Glm.dot b b - Glm.dot a b * Glm.dot a b.
Proof. vec_ring. Qed.

Lemma inversesqrt_sqr x : 0 < x -> Glm.inversesqrt x * Glm.inversesqrt x * x = 1.
Proof.
  intros Hx. unfold Glm.inversesqrt; cbn.
  pose proof (sqrt_lt_R0 x Hx) as Hs.
  pose proof (sqrt_sqrt x (Rlt_le _ _ Hx)) as Hq.
  set (s := sqrt x) in *. rewrite <- Hq. field. lra.
Qed.

Lemma inversesqrt_pos x : 0 < x -> 0 < Glm.inversesqrt x.
Proof.
  intros Hx. unfold Glm.inversesqrt; cbn.
  apply Rdiv_lt_0_compat; [lra | apply sqrt_lt_R0; exact Hx].
Qed.

(** [glm::normalize] of a vector that is not null is a unit vector. *)
Lemma normalize_unit (v : vec) :
  0 < Glm.dot v v -> Glm.dot (Glm.normalize v) (Glm.normalize v) = 1.
Proof.
  intros Hv. unfold Glm.normalize.
  rewrite dot_scale_l, dot_scale_r.
  rewrite <- (inversesqrt_sqr _ Hv). ring.
Qed.

Lemma normalize_orth_l (v w : vec) :
  Glm.dot v w = 0 -> Glm.dot (Glm.normalize v) w = 0.
Proof. intros H. unfold Glm.normalize. rewrite dot_scale_l, H. ring. Qed.

(** The basis [getCamera] builds from a viewing direction [v] that is not
    parallel to the world up vector. *)
Lemma basis_orthonormal (v : vec) :
  0 < Glm.vx v * Glm.vx v + Glm.vz v * Glm.vz v ->
  let forward := Glm.normalize v in
  let right := Glm.normalize (Glm.cross forward (Glm.mkVec3 (IZR 0) (IZR 1) (IZR 0))) in
  let up := Glm.normalize (Glm.cross right forward) in
  orthonormal right up forward.
Proof.
  intros Hxz forward right up.
  assert (Hv : 0 < Glm.dot v v).
  { unfold Glm.dot; cbn. nra. }
  assert (Hf : Glm.dot forward forward = 1) by (apply normalize_unit; exact Hv).
  set (c1 := Glm.cross forward (Glm.mkVec3 (IZR 0) (IZR 1) (IZR 0))) in *.
  assert (Hc1 : 0 < Glm.dot c1 c1).
  { pose proof (inversesqrt_pos _ Hv) as Hk.
    replace (Glm.dot c1 c1) with
      (Glm.inversesqrt (Glm.dot v v) * Glm.inversesqrt (Glm.dot v v)
       * (Glm.vx v * Glm.vx v + Glm.vz v * Glm.vz v)).
    - apply Rmult_lt_0_compat; [apply Rmult_lt_0_compat | ]; assumption.
    - unfold c1, forward, Glm.normalize. vec_ring. }
  assert (Hr : Glm.dot right right = 1) by (apply normalize_unit; exact Hc1).
  assert (Hrf : Glm.dot right forward = 0).
  { apply normalize_orth_l. apply cross_orth_l. }
  set (c2 := Glm.cross right forward) in *.
  assert (Hc2 : Glm.dot c2 c2 = 1).
  { unfold c2. rewrite cross_norm, Hr, Hf, Hrf. ring. }
  assert (Hu : Glm.dot up up = 1).
  { apply normalize_unit. rewrite Hc2. lra. }
  assert (Huf : Glm.dot up forward = 0).
  { apply normalize_orth_l. apply cross_orth_r. }
  assert (Hru : Glm.dot right up = 0).
  { rewrite dot_comm. apply normalize_orth_l. apply cross_orth_l. }
  unfold orthonormal. tauto.
Qed.

(** [glm::clamp] over the reals, with ordered bounds. *)
Lemma clamp_between (x lo hi : R) :
  lo <= hi -> lo <= Glm.clamp x lo hi <= hi.
Proof.
  intros H. unfold Glm.clamp, Glm.min, Glm.max; cbn. unfold Rltb.
  destruct (Rlt_dec x lo); destruct (Rlt_dec hi _); lra.
Qed.

(** C5. Over the reals, for every orbit radius the controller can have (any
    positive one), every azimuth and elevation and every image size, the
    right, up and forward vectors of [getCamera] are unit vectors and
    pairwise orthogonal: the elevation is clamped to [0.01, pi - 0.01], so
    forward is never parallel to the world up vector. *)
Theorem getCamera_orthonormal
    (radius azimuth elevation : R) (moving : bool) (width height : Z) :
  0 < radius -> (0 < width)%Z -> (0 < height)%Z ->
  let cam := getCamera_real radius azimuth elevation moving width height in
  orthonormal (cam_right cam) (cam_up cam) (cam_forward cam).
Proof.
  intros Hr _ _ cam.
  unfold cam, getCamera_real, Controller.getCamera_on.
  cbn [cam_right cam_up cam_forward].
  apply basis_orthonormal.
  unfold Glm.vsub; cbn [Glm.vx Glm.vy Glm.vz]. cbn.
  assert (HE : 1 / 100 <= Glm.clamp elevation (1 / 100) (PI - 1 / 100)
               <= PI - 1 / 100).
  { apply (clamp_between elevation (1 / 100) (PI - 1 / 100)).
    pose proof PI2_1. lra. }
  set (E := Glm.clamp elevation (1 / 100) (PI - 1 / 100)) in *.
  clearbody E.
  assert (Hsin : 0 < sin E) by (apply sin_gt_0; lra).
  pose proof (sin2_cos2 azimuth) as Ha. unfold Rsqr in Ha.
  replace ((0 - radius * sin E * cos azimuth) * (0 - radius * sin E * cos azimuth)
           + (0 - radius * sin E * sin azimuth) * (0 - radius * sin E * sin azimuth))
    with ((radius * sin E) * (radius * sin E)
          * (sin azimuth * sin azimuth + cos azimuth * cos azimuth)) by ring.
  rewrite Ha, Rmult_1_r.
  apply Rmult_lt_0_compat; apply Rmult_lt_0_compat; assumption.
Qed.

Lemma getCamera_orthonormal_witness :
  0 < 63419400000 /\ (0 < 1200)%Z /\ (0 < 900)%Z /\
  orthonormal
    (cam_right (getCamera_real 63419400000 0 (PI / 2) false 1200 900))
    (cam_up (getCamera_real 63419400000 0 (PI / 2) false 1200 900))
    (cam_forward (getCamera_real 63419400000 0 (PI / 2) false 1200 900)).
Proof.
  split; [lra | split; [lia | split; [lia | ]]].
  apply (getCamera_orthonormal 63419400000 0 (PI / 2) false 1200 900);
    [lra | lia | lia].
Defined.

End CameraFacts.

(** ** The time passed to the kernel *)

Module ClockFacts.
Import Controller Renderer ClockSpec RendererFacts RoundingFacts SampleSession.

Section RunClock.

Variable libm : Libm.
Variable kernel : LaunchArgs -> nat -> float4.

Lemma elapsed_seconds_mono startTime t1 t2 :
  startTime <= t1 <= t2 -> t2 - startTime < 2 ^ 63 ->
  fle (elapsed_seconds startTime t1) (elapsed_seconds startTime t2) = true.
Proof.
  intros H Hb. unfold elapsed_seconds.
  apply elapsed_seconds_mono_ticks; lia.
Qed.

Lemma run_loop_times startTime envs : forall p t0,
  startTime <= t0 ->
  Sorted Z.le (t0 :: map fe_now envs) ->
  Forall (fun env => fe_now env - startTime < 2 ^ 63) envs ->
  let ts := launch_times (run_loop libm kernel startTime p envs) in
  Sorted (fun a b => fle a b = true) ts /\
  HdRel (fun a b => fle a b = true) (elapsed_seconds startTime t0) ts.
Proof.
  induction envs as [ | env envs IH]; intros p t0 Ht0 Hs Hb;
    cbn [Renderer.run_loop].
  - destruct (shouldClose p); split; constructor.
  - destruct (shouldClose p); [split; constructor | ].
    cbn [map] in Hs.
    apply Sorted_inv in Hs as [Hs Hhd]. apply HdRel_inv in Hhd.
    apply Forall_cons_iff in Hb as [Hb1 Hb].
    pose proof (iteration_params libm kernel startTime p env) as Hi.
    destruct (iteration libm kernel startTime p env) as [[p' fr] [status | ]];
      destruct Hi as (_ & _ & _ & _ & Ht & _).
    + unfold launch_times, frames; cbn [fst map]. rewrite Ht. split.
      * repeat constructor.
      * constructor. apply elapsed_seconds_mono; lia.
    + specialize (IH p' (fe_now env) ltac:(lia) Hs Hb).
      unfold launch_times, frames in *.
      destruct (run_loop libm kernel startTime p' envs) as [[frs ending] pf].
      cbn [fst map] in *. destruct IH as [IH1 IH2]. rewrite Ht. split.
      * constructor; assumption.
      * constructor. apply elapsed_seconds_mono; lia.
Qed.

(** C8, as the code has it.  With a clock that never goes back, the time
    passed to the kernel never decreases from one iteration of the loop to
    the next. *)
Theorem launch_times_monotone
    (r : CudaRenderer) (garbage : list float4) (startTime : Z)
    (envs : list FrameEnv) :
  steady_clock startTime envs ->
  Sorted (fun t1 t2 => fle t1 t2 = true)
         (launch_times (run libm kernel r garbage startTime envs)).
Proof.
  intros [Hs Hb]. unfold Renderer.run.
  apply (run_loop_times startTime envs _ startTime (Z.le_refl _) Hs Hb).
Qed.

End RunClock.

(** The model computes: 16 ms after the start the kernel is given the float
    nearest to 0.016. *)
Example elapsed_seconds_16ms :
  elapsed_seconds 1000000000 1016000000 = S754_finite false 8589935 (-29).
Proof. reflexivity. Qed.

Lemma launch_times_monotone_witness :
  steady_clock 1000000000 sample_envs /\
  Sorted (fun t1 t2 => fle t1 t2 = true)
         (launch_times (run sample_libm sample_kernel sample_renderer []
                          1000000000 sample_envs)).
Proof.
  split; [split; repeat constructor; cbn; lia | ].
  apply (launch_times_monotone sample_libm sample_kernel sample_renderer []
           1000000000 sample_envs).
  split; repeat constructor; cbn; lia.
Defined.

(** C8 as stated fails when the clock is set back between two iterations
    ([std::chrono::high_resolution_clock] need not be steady): the second
    launch gets 0.016 after the first got 0.033. *)
Lemma clock_set_back_decreases_time :
  CudaRenderer_new all_ok 4 3 = Done small_renderer /\
  launch_times (run sample_libm sample_kernel small_renderer [] 1000000000
                  backward_envs)
  = [ S754_finite false 8858370 (-28); S754_finite false 8589935 (-29) ] /\
  fle (S754_finite false 8858370 (-28)) (S754_finite false 8589935 (-29))
  = false.
Proof. repeat split; vm_compute; reflexivity. Qed.

End ClockFacts.

(** * Further properties of the controller, the camera and the program *)

Module ControllerTraceFacts.
Import Controller ControllerInv ControllerTraces FloatFacts.

(** *** Elevation *)

Lemma dsub_finite_not_nan x y :
  is_finite x = true -> is_finite y = true -> is_nan (dsub x y) = false.
Proof.
  destruct x as [sx | sx | | sx mx ex], y as [sy | sy | | sy my ey];
    cbn [is_finite]; intros Hx Hy; try discriminate; try reflexivity.
  - destruct sx, sy; reflexivity.
  - apply binary_normalize_not_nan.
Qed.

(** [glm::clamp] returns a value within its bounds unchanged. *)
Lemma clamp_fixed (x lo hi : float) :
  fle lo x = true -> fle x hi = true -> Glm.clamp x lo hi = x.
Proof.
  intros H1 H2. unfold Glm.clamp, Glm.max, Glm.min. cbn [s_lt float_arith].
  rewrite (fle_flt_false _ _ H1). rewrite (fle_flt_false _ _ H2). reflexivity.
Qed.

Lemma elevation_bounds_ordered : fle elevation_lo elevation_hi = true.
Proof. vm_compute. reflexivity. Qed.

Lemma elevation_inv_initial : elevation_inv initial.
Proof. repeat split. Qed.

Lemma elevation_inv_finite c : elevation_inv c -> is_finite (elevation c) = true.
Proof.
  intros (_ & _ & H). unfold in_elevation_range in H.
  apply andb_true_iff in H as [H1 H2].
  eapply between_finite; try eassumption; reflexivity.
Qed.

Lemma processMouseMove_elevation_inv c x y :
  is_finite x && is_finite y = true ->
  elevation_inv c -> elevation_inv (processMouseMove c x y).
Proof.
  intros Hxy H. apply andb_true_iff in Hxy as [Hx Hy].
  pose proof (elevation_inv_finite c H) as Hfin.
  destruct H as (Hs & Hl & Hr).
  unfold processMouseMove. destruct (negb (dragging c)); [repeat split; assumption | ].
  assert (Hn : is_nan (fsub (elevation c)
                         (fmul (float_of_double (dsub y (lastY c))) (orbitSpeed c)))
               = false).
  { apply fsub_finite_not_nan; [assumption | ].
    rewrite Hs. apply fmul_finite_not_nan.
    apply float_of_double_not_nan. apply dsub_finite_not_nan; assumption. }
  destruct (clamp_in_range _ elevation_lo elevation_hi
              elevation_bounds_ordered Hn) as [H1 H2].
  split; [exact Hs | split; [exact Hy | ]].
  unfold in_elevation_range. apply andb_true_intro.
  split; [exact H1 | exact H2].
Qed.

Lemma processMouseButton_elevation_inv c b a cx cy :
  is_finite cx && is_finite cy = true ->
  elevation_inv c -> elevation_inv (processMouseButton c b a cx cy).
Proof.
  intros Hxy H. apply andb_true_iff in Hxy as [Hx Hy].
  destruct H as (Hs & Hl & Hr).
  unfold processMouseButton.
  destruct (b =? _); [ | repeat split; assumption].
  destruct (a =? GLFW_PRESS); [ | destruct (a =? GLFW_RELEASE)];
    repeat split; assumption.
Qed.

Lemma apply_preset_elevation_inv c p :
  elevation_inv c -> elevation_inv (apply_preset c p).
Proof.
  intros (Hs & Hl & Hr). unfold apply_preset.
  destruct (p =? 0); [ | destruct (p =? 1); [ | destruct (p =? 2)]];
    (split; [exact Hs | split; [exact Hl | ]]);
    try exact Hr; vm_compute; reflexivity.
Qed.

Lemma processKey_elevation_inv st k sc a m :
  elevation_inv (fst st) -> elevation_inv (fst (processKey st k sc a m)).
Proof.
  destruct st as [c p]. cbn [fst]. intros H. unfold processKey.
  destruct (a =? GLFW_PRESS); [ | exact H].
  destruct (k =? GLFW_KEY_R); [ | destruct (k =? GLFW_KEY_P)]; cbn [fst snd].
  - destruct H as (Hs & Hl & Hr).
    split; [exact Hs | split; [exact Hl | vm_compute; reflexivity]].
  - exact (apply_preset_elevation_inv c _ H).
  - exact H.
Qed.

Lemma dispatch_elevation_inv st ev :
  finite_cursor ev = true ->
  elevation_inv (fst st) -> elevation_inv (fst (dispatch st ev)).
Proof.
  intros Hf H. destruct ev; cbn [dispatch fst].
  - apply processMouseMove_elevation_inv; assumption.
  - apply processMouseButton_elevation_inv; assumption.
  - exact H.
  - apply processKey_elevation_inv; assumption.
Qed.

Lemma dispatch_all_elevation_inv evs : forall st,
  forallb finite_cursor evs = true -> elevation_inv (fst st) ->
  elevation_inv (fst (dispatch_all st evs)).
Proof.
  induction evs as [ | ev evs IH]; intros st Hf H; cbn [dispatch_all fold_left].
  - exact H.
  - cbn [forallb] in Hf. apply andb_true_iff in Hf as [Hev Hrest].
    apply IH; auto using dispatch_elevation_inv.
Qed.

(** After any sequence of events with finite cursor coordinates the
    elevation lies within [0.01f, float(M_PI) - 0.01f], so the clamp of
    [getCamera] returns the stored elevation itself. *)
Theorem elevation_stays_clamped (evs : list Event) :
  forallb finite_cursor evs = true ->
  let c := fst (dispatch_all (initial, 0) evs) in
  fle elevation_lo (elevation c) = true /\
  fle (elevation c) elevation_hi = true /\
  Glm.clamp (elevation c) elevation_lo elevation_hi = elevation c.
Proof.
  intros Hf c.
  destruct (dispatch_all_elevation_inv evs (initial, 0) Hf elevation_inv_initial)
    as (_ & _ & Hr).
  fold c in Hr. unfold in_elevation_range in Hr.
  apply andb_true_iff in Hr as [H1 H2].
  split; [exact H1 | split; [exact H2 | apply clamp_fixed; assumption]].
Qed.

Lemma elevation_stays_clamped_witness :
  forallb finite_cursor sample_events = true /\
  fle elevation_lo (elevation (fst (dispatch_all (initial, 0) sample_events)))
  = true.
Proof.
  split; [reflexivity | ].
  apply (elevation_stays_clamped sample_events). reflexivity.
Defined.

End ControllerTraceFacts.

Module ControllerEventFacts.
Import Controller ControllerInv ControllerTraces FloatFacts.

(** *** A NaN radius *)

Lemma processScroll_nan c xo yo :
  is_nan (radius c) = true -> is_nan (radius (processScroll c xo yo)) = true.
Proof.
  intros H. unfold processScroll.
  cbn [radius set_radius set_moving minRadius maxRadius zoomSpeed].
  destruct (radius c); try discriminate.
  change (fsub S754_nan (fmul (float_of_double yo) (zoomSpeed c)))
    with S754_nan.
  rewrite clamp_nan. reflexivity.
Qed.

Lemma dispatch_radius_no_key st ev :
  is_key ev = false ->
  is_nan (radius (fst st)) = true ->
  is_nan (radius (fst (dispatch st ev))) = true.
Proof.
  intros Hk H. destruct ev; try discriminate; cbn [dispatch fst].
  - unfold processMouseMove. destruct (negb (dragging (fst st))); exact H.
  - unfold processMouseButton.
    destruct (button =? _); [ | exact H].
    destruct (action =? GLFW_PRESS); [ | destruct (action =? GLFW_RELEASE)];
      exact H.
  - apply processScroll_nan; exact H.
Qed.

(** Once the radius is a NaN, no scroll, mouse move or mouse button brings
    it back: it is a NaN after every sequence of events without a key. *)
Theorem nan_radius_persists (evs : list Event) :
  forall st,
    forallb (fun ev => negb (is_key ev)) evs = true ->
    is_nan (radius (fst st)) = true ->
    is_nan (radius (fst (dispatch_all st evs))) = true.
Proof.
  induction evs as [ | ev evs IH]; intros st Hk H;
    cbn [dispatch_all fold_left].
  - exact H.
  - cbn [forallb] in Hk. apply andb_true_iff in Hk as [Hev Hrest].
    apply IH; [exact Hrest | ].
    apply dispatch_radius_no_key; [ | exact H].
    destruct (is_key ev); [discriminate | reflexivity].
Qed.

Lemma nan_radius_persists_witness :
  forallb (fun ev => negb (is_key ev))
    [Scroll (S754_zero false) (double_of_Z 5); MouseMove (double_of_Z 1) (double_of_Z 2)]
  = true /\
  is_nan (radius (fst (broken, 0))) = true /\
  is_nan (radius (fst (dispatch_all (broken, 0)
    [Scroll (S754_zero false) (double_of_Z 5); MouseMove (double_of_Z 1) (double_of_Z 2)])))
  = true.
Proof.
  split; [reflexivity | split; [reflexivity | ]].
  apply (nan_radius_persists
           [Scroll (S754_zero false) (double_of_Z 5);
            MouseMove (double_of_Z 1) (double_of_Z 2)] (broken, 0));
    reflexivity.
Defined.

(** The keys [R] and [P] put the radius back into the orbit range, whatever
    it was. *)
Theorem reset_and_preset_restore_radius
    (c : CudaCameraController) (p key scancode mods : Z) :
  fixed_fields c -> 0 <= p <= 2 ->
  key = GLFW_KEY_R \/ key = GLFW_KEY_P ->
  in_orbit_range (fst (processKey (c, p) key scancode GLFW_PRESS mods)) = true.
Proof.
  intros (Hmin & Hmax & _) Hp Hk.
  unfold processKey. cbn [Z.eqb GLFW_PRESS Pos.eqb].
  destruct Hk as [-> | ->].
  - cbn [Z.eqb GLFW_KEY_R Pos.eqb fst snd].
    unfold in_orbit_range.
    cbn [radius minRadius maxRadius set_moving set_elevation set_azimuth set_radius].
    rewrite Hmin, Hmax. vm_compute. reflexivity.
  - cbn [Z.eqb GLFW_KEY_P GLFW_KEY_R Pos.eqb fst snd].
    unfold in_orbit_range, apply_preset.
    assert (Hc : p = 0 \/ p = 1 \/ p = 2) by lia.
    destruct Hc as [-> | [-> | ->]];
      [ change (Z.rem (0 + 1) 3) with 1
      | change (Z.rem (1 + 1) 3) with 2
      | change (Z.rem (2 + 1) 3) with 0 ];
      cbn [Z.eqb Pos.eqb radius minRadius maxRadius
           set_moving set_elevation set_azimuth set_radius];
      rewrite Hmin, Hmax; vm_compute; reflexivity.
Qed.

Lemma reset_and_preset_restore_radius_witness :
  fixed_fields broken /\ 0 <= 0 <= 2 /\
  in_orbit_range broken = false /\
  in_orbit_range (fst (processKey (broken, 0) GLFW_KEY_R 0 GLFW_PRESS 0)) = true.
Proof.
  split; [repeat split | split; [lia | split; [reflexivity | ]]].
  apply (reset_and_preset_restore_radius broken 0 GLFW_KEY_R 0 0);
    [repeat split | lia | left; reflexivity].
Defined.

End ControllerEventFacts.

Module ControllerFlagFacts.
Import Controller ControllerInv ControllerTraces ControllerFlags.

(** *** The dragging flag *)

Lemma apply_preset_dragging c q : dragging (apply_preset c q) = dragging c.
Proof.
  unfold apply_preset.
  destruct (q =? 0); [ | destruct (q =? 1); [ | destruct (q =? 2)]];
    reflexivity.
Qed.

Lemma dispatch_dragging st ev :
  dragging (fst (dispatch st ev)) = drag_step (dragging (fst st)) ev.
Proof.
  destruct st as [c p]. destruct ev; cbn [dispatch fst drag_step].
  - unfold processMouseMove. destruct (dragging c) eqn:E; exact E.
  - unfold processMouseButton.
    destruct (button =? _); [ | reflexivity].
    destruct (action =? GLFW_PRESS); [ | destruct (action =? GLFW_RELEASE)];
      reflexivity.
  - reflexivity.
  - unfold processKey. destruct (action =? GLFW_PRESS); [ | reflexivity].
    destruct (key =? GLFW_KEY_R); [reflexivity | ].
    destruct (key =? GLFW_KEY_P); [ | reflexivity].
    cbn [fst snd set_moving dragging]. apply apply_preset_dragging.
Qed.

(** The dragging flag depends on the left-button events alone: after any
    sequence of events it is what the presses and releases of the left
    button in it make of the flag before, the last of them deciding. *)
Theorem dragging_follows_left_button (evs : list Event) :
  forall st,
    dragging (fst (dispatch_all st evs))
    = fold_left drag_step evs (dragging (fst st)).
Proof.
  induction evs as [ | ev evs IH]; intros st; cbn [dispatch_all fold_left].
  - reflexivity.
  - unfold dispatch_all in IH. rewrite IH, dispatch_dragging. reflexivity.
Qed.

(** *** The moving flag *)

Lemma dispatch_moving st ev :
  is_left_release ev = false ->
  moving (fst st) = true -> moving (fst (dispatch st ev)) = true.
Proof.
  destruct st as [c p]. intros Hr H. cbn [fst] in H.
  destruct ev; cbn [dispatch fst].
  - unfold processMouseMove. destruct (negb (dragging c)); [exact H | reflexivity].
  - unfold processMouseButton. cbn [is_left_release] in Hr.
    destruct (button =? _); [ | exact H].
    destruct (action =? GLFW_PRESS); [reflexivity | ].
    destruct (action =? GLFW_RELEASE); [discriminate | exact H].
  - reflexivity.
  - unfold processKey. destruct (action =? GLFW_PRESS); [reflexivity | exact H].
Qed.

Lemma dispatch_all_moving evs : forall st,
  forallb (fun ev => negb (is_left_release ev)) evs = true ->
  moving (fst st) = true -> moving (fst (dispatch_all st evs)) = true.
Proof.
  induction evs as [ | ev evs IH]; intros st Hn H; cbn [dispatch_all fold_left].
  - exact H.
  - cbn [forallb] in Hn. apply andb_true_iff in Hn as [Hev Hrest].
    apply IH; [exact Hrest | ].
    apply dispatch_moving; [ | exact H].
    destruct (is_left_release ev); [discriminate | reflexivity].
Qed.

(** After a scroll the camera is reported as moving, and it stays so
    through every later event until the left button is released: no other
    event clears the flag [getCamera] passes on. *)
Theorem moving_until_left_release
    (libm : Libm) (c : CudaCameraController) (p : Z) (xoffset yoffset : double)
    (evs : list Event) (width height : Z) :
  forallb (fun ev => negb (is_left_release ev)) evs = true ->
  cam_moving
    (getCamera libm
       (fst (dispatch_all (processScroll c xoffset yoffset, p) evs))
       width height)
  = true.
Proof.
  intros Hn.
  change (moving (fst (dispatch_all (processScroll c xoffset yoffset, p) evs))
          = true).
  apply dispatch_all_moving; [exact Hn | reflexivity].
Qed.

Lemma moving_until_left_release_witness :
  forallb (fun ev => negb (is_left_release ev)) sample_events = true /\
  cam_moving
    (getCamera SampleSession.sample_libm
       (fst (dispatch_all
               (processScroll initial (S754_zero false) (double_of_Z 1), 0)
               sample_events))
       1200 900)
  = true.
Proof.
  split; [reflexivity | ].
  apply (moving_until_left_release SampleSession.sample_libm initial 0
           (S754_zero false) (double_of_Z 1) sample_events 1200 900).
  reflexivity.
Defined.

(** *** The preset counter *)

Lemma dispatch_preset st ev :
  0 <= snd st <= 2 -> 0 <= snd (dispatch st ev) <= 2.
Proof.
  destruct st as [c p]. cbn [snd]. intros Hp.
  destruct ev; cbn [dispatch snd]; try exact Hp.
  unfold processKey.
  destruct (action =? GLFW_PRESS); [ | exact Hp].
  destruct (key =? GLFW_KEY_R); [exact Hp | ].
  destruct (key =? GLFW_KEY_P); [ | exact Hp]. cbn [snd].
  pose proof (Z.rem_bound_pos (p + 1) 3 ltac:(lia) ltac:(lia)). lia.
Qed.

(** The [static int preset] of [processKey] is 0, 1 or 2 after every
    sequence of events, so [preset + 1] never overflows. *)
Theorem preset_stays_in_range (evs : list Event) :
  0 <= snd (dispatch_all (initial, 0) evs) <= 2.
Proof.
  assert (H : forall st, 0 <= snd st <= 2 -> 0 <= snd (dispatch_all st evs) <= 2).
  { induction evs as [ | ev evs IH]; intros st Hp; cbn [dispatch_all fold_left].
    - exact Hp.
    - apply IH. apply dispatch_preset. exact Hp. }
  apply H. cbn. lia.
Qed.

(** Three presses of [P] come back to the preset they started from: the
    counter has its old value, and radius, azimuth and elevation are those of
    that preset. *)
Theorem three_presets_cycle (c : CudaCameraController) (p : Z) :
  0 <= p <= 2 ->
  let st := dispatch_all (c, p) three_P in
  snd st = p /\
  radius (fst st) = radius (apply_preset c p) /\
  azimuth (fst st) = azimuth (apply_preset c p) /\
  elevation (fst st) = elevation (apply_preset c p).
Proof.
  intros Hp.
  assert (Hc : p = 0 \/ p = 1 \/ p = 2) by lia.
  destruct Hc as [-> | [-> | ->]]; repeat split.
Qed.

Lemma three_presets_cycle_witness :
  0 <= 1 <= 2 /\ snd (dispatch_all (initial, 1) three_P) = 1.
Proof.
  split; [lia | ].
  apply (three_presets_cycle initial 1). lia.
Defined.

End ControllerFlagFacts.

Module CameraGeometryFacts.
Import RealScalar CameraSpec CameraFacts.
Local Open Scope R_scope.

Local Abbreviation vec := (Glm.vec3 R).
Local Abbreviation worldUp := (Glm.mkVec3 (IZR 0) (IZR 1) (IZR 0)).

Ltac vring :=
  unfold Glm.dot, Glm.cross, Glm.vscale, Glm.vsub; cbn; ring.

(** The clamped elevation of [getCamera] has a positive sine. *)
Lemma clamped_elevation_sin elevation :
  0 < sin (Glm.clamp elevation (1 / 100) (PI - 1 / 100)).
Proof.
  assert (HE : 1 / 100 <= Glm.clamp elevation (1 / 100) (PI - 1 / 100)
               <= PI - 1 / 100).
  { apply (clamp_between elevation (1 / 100) (PI - 1 / 100)).
    pose proof PI2_1. lra. }
  apply sin_gt_0; lra.
Qed.

Lemma position_norm radius azimuth elevation moving width height :
  let cam := getCamera_real radius azimuth elevation moving width height in
  Glm.dot (cam_position cam) (cam_position cam) = radius * radius.
Proof.
  intros cam. unfold cam, getCamera_real, Controller.getCamera_on.
  cbn [cam_position]. unfold Glm.dot. cbn -[Glm.clamp].
  set (E := Glm.clamp elevation (1 / 100) (PI - 1 / 100)).
  pose proof (sin2_cos2 azimuth) as Ha. unfold Rsqr in Ha.
  pose proof (sin2_cos2 E) as He. unfold Rsqr in He.
  replace (radius * sin E * cos azimuth * (radius * sin E * cos azimuth)
           + radius * cos E * (radius * cos E)
           + radius * sin E * sin azimuth * (radius * sin E * sin azimuth))
    with (radius * radius
          * (sin E * sin E * (sin azimuth * sin azimuth + cos azimuth * cos azimuth)
             + cos E * cos E)) by ring.
  rewrite Ha, Rmult_1_r, He. ring.
Qed.

(** The camera sits on the sphere of the orbit radius around the target. *)
Theorem camera_on_orbit_sphere
    (radius azimuth elevation : R) (moving : bool) (width height : Z) :
  let cam := getCamera_real radius azimuth elevation moving width height in
  Glm.dot (cam_position cam) (cam_position cam) = radius * radius.
Proof.
  exact (position_norm radius azimuth elevation moving width height).
Qed.

(** The viewing direction from the camera to the target, before it is
    normalised: its length is the radius and it is not vertical. *)
Lemma view_direction radius azimuth elevation moving width height :
  0 < radius ->
  let cam := getCamera_real radius azimuth elevation moving width height in
  let v := Glm.vsub (Glm.mkVec3 0 0 0) (cam_position cam) in
  Glm.dot v v = radius * radius /\
  0 < Glm.vx v * Glm.vx v + Glm.vz v * Glm.vz v.
Proof.
  intros Hr cam v. split.
  - pose proof (position_norm radius azimuth elevation moving
                  width height) as H. cbv zeta in H. fold cam in H.
    unfold v. rewrite <- H. vring.
  - unfold v, cam, getCamera_real, Controller.getCamera_on.
    cbn [cam_position]. unfold Glm.vsub. cbn -[Glm.clamp].
    pose proof (clamped_elevation_sin elevation) as Hsin.
    set (E := Glm.clamp elevation (1 / 100) (PI - 1 / 100)) in *.
    pose proof (sin2_cos2 azimuth) as Ha. unfold Rsqr in Ha.
    replace ((0 - radius * sin E * cos azimuth) * (0 - radius * sin E * cos azimuth)
             + (0 - radius * sin E * sin azimuth) * (0 - radius * sin E * sin azimuth))
      with ((radius * sin E) * (radius * sin E)
            * (sin azimuth * sin azimuth + cos azimuth * cos azimuth)) by ring.
    rewrite Ha, Rmult_1_r.
    apply Rmult_lt_0_compat; apply Rmult_lt_0_compat; assumption.
Qed.

Lemma vec_eq (a b : vec) :
  Glm.vx a = Glm.vx b -> Glm.vy a = Glm.vy b -> Glm.vz a = Glm.vz b -> a = b.
Proof. destruct a, b; cbn; intros; subst; reflexivity. Qed.

(** The camera looks at the target: the forward vector, scaled by the
    radius, leads from the camera position to the target. *)
Theorem camera_looks_at_target
    (radius azimuth elevation : R) (moving : bool) (width height : Z) :
  0 < radius ->
  let cam := getCamera_real radius azimuth elevation moving width height in
  Glm.vscale (cam_forward cam) radius
  = Glm.vsub (Glm.mkVec3 0 0 0) (cam_position cam).
Proof.
  intros Hr cam.
  destruct (view_direction radius azimuth elevation moving width height Hr)
    as [Hlen _]. fold cam in Hlen.
  change (cam_forward cam)
    with (Glm.normalize (Glm.vsub (Glm.mkVec3 0 0 0) (cam_position cam))).
  set (v := Glm.vsub (Glm.mkVec3 0 0 0) (cam_position cam)) in *.
  assert (Hk : Glm.inversesqrt (Glm.dot v v) * radius = 1).
  { rewrite Hlen. unfold Glm.inversesqrt. cbn.
    rewrite sqrt_square by lra. field. lra. }
  unfold Glm.normalize. set (k := Glm.inversesqrt (Glm.dot v v)) in *.
  clearbody k. clearbody v.
  apply vec_eq; unfold Glm.vscale; cbn [Glm.vx Glm.vy Glm.vz s_mul real_arith];
    rewrite Rmult_assoc, Hk; ring.
Qed.

Lemma camera_looks_at_target_witness :
  0 < 63419400000 /\
  Glm.vscale (cam_forward (getCamera_real 63419400000 0 (PI / 2) false 1200 900))
    63419400000
  = Glm.vsub (Glm.mkVec3 0 0 0)
      (cam_position (getCamera_real 63419400000 0 (PI / 2) false 1200 900)).
Proof.
  split; [lra | ].
  apply (camera_looks_at_target 63419400000 0 (PI / 2) false 1200 900). lra.
Defined.

(** Normalising a unit vector changes nothing. *)
Lemma normalize_of_unit (c : vec) : Glm.dot c c = 1 -> Glm.normalize c = c.
Proof.
  intros H. unfold Glm.normalize. rewrite H.
  unfold Glm.inversesqrt. cbn [s_div s_of_Z s_sqrt real_arith].
  rewrite sqrt_1. destruct c as [x y z]. unfold Glm.vscale. cbn.
  f_equal; field.
Qed.

(** The basis of a viewing direction that is not vertical: right is
    horizontal, up has a positive vertical component and is the cross product
    of right and forward. *)
Lemma basis_upright (v : vec) :
  0 < Glm.vx v * Glm.vx v + Glm.vz v * Glm.vz v ->
  let forward := Glm.normalize v in
  let right := Glm.normalize (Glm.cross forward worldUp) in
  let up := Glm.normalize (Glm.cross right forward) in
  Glm.vy right = 0 /\ 0 < Glm.vy up /\ up = Glm.cross right forward.
Proof.
  intros Hxz forward right up.
  destruct (basis_orthonormal v Hxz) as (Hr & _ & Hf & _ & Hrf & _).
  fold forward in Hr, Hf, Hrf. fold right in Hr, Hrf.
  assert (Hv : 0 < Glm.dot v v) by (unfold Glm.dot; cbn; nra).
  pose proof (inversesqrt_pos _ Hv) as Hk.
  set (c1 := Glm.cross forward worldUp) in *.
  assert (Hc1 : 0 < Glm.dot c1 c1).
  { replace (Glm.dot c1 c1) with
      (Glm.inversesqrt (Glm.dot v v) * Glm.inversesqrt (Glm.dot v v)
       * (Glm.vx v * Glm.vx v + Glm.vz v * Glm.vz v)).
    - apply Rmult_lt_0_compat; [apply Rmult_lt_0_compat | ]; assumption.
    - unfold c1, forward, Glm.normalize. vring. }
  pose proof (inversesqrt_pos _ Hc1) as Hk1.
  assert (Hup : up = Glm.cross right forward).
  { unfold up. apply normalize_of_unit.
    rewrite cross_norm, Hr, Hf, Hrf. ring. }
  split; [ | split; [ | exact Hup]].
  - unfold right, Glm.normalize, c1. vring.
  - rewrite Hup.
    replace (Glm.vy (Glm.cross right forward)) with
      (Glm.inversesqrt (Glm.dot c1 c1) * Glm.dot c1 c1).
    + apply Rmult_lt_0_compat; assumption.
    + unfold right, Glm.normalize. fold c1.
      unfold c1 at 3 4. vring.
Qed.

(** The camera never rolls and never hangs upside down: right is
    horizontal, up points to the upper half space, and up = right x forward. *)
Theorem camera_upright
    (radius azimuth elevation : R) (moving : bool) (width height : Z) :
  0 < radius ->
  let cam := getCamera_real radius azimuth elevation moving width height in
  Glm.vy (cam_right cam) = 0 /\ 0 < Glm.vy (cam_up cam) /\
  cam_up cam = Glm.cross (cam_right cam) (cam_forward cam).
Proof.
  intros Hr cam.
  destruct (view_direction radius azimuth elevation moving width height Hr)
    as [_ Hxz].
  exact (basis_upright _ Hxz).
Qed.

Lemma camera_upright_witness :
  0 < 63419400000 /\
  Glm.vy (cam_right (getCamera_real 63419400000 0 (PI / 2) false 1200 900)) = 0.
Proof.
  split; [lra | ].
  apply (camera_upright 63419400000 0 (PI / 2) false 1200 900). lra.
Defined.

End CameraGeometryFacts.

Module ProgramFacts.
Import Controller Renderer ProgramSpec RendererFacts SampleSession.

(** *** Construction *)

Lemma CudaRenderer_new_cases (env : InitEnv) (w h : Z) :
  match CudaRenderer_new env w h with
  | Done r =>
      init_ok env = true /\
      r = mkRenderer w h session_disk session_blackHole initial
  | Thrown _ => window_ok env = false
  | Exited status =>
      status = 1 /\ window_ok env = true /\ init_ok env = false
  end.
Proof.
  destruct env as [a b c d e f g i j].
  unfold CudaRenderer_new, initOpenGL, initCUDA, init_ok, window_ok.
  cbn [glfwInit_ok glfwCreateWindow_ok glewInit_ok gl_texture_ok gl_quad_ok
       cudaSetDevice_ok cudaRegisterImage_ok cudaMalloc_ok
       cudaGetDeviceProperties_ok].
  destruct a, b, c, d, e, f, g, i, j; cbn [negb andb]; repeat split.
Qed.

(** The constructor returns a renderer exactly when all nine
    initialisation steps succeed; it throws when GLFW or GLEW fails and ends
    the process with status 1 when an OpenGL or CUDA check fails after
    that. *)
Theorem construction_outcome (env : InitEnv) (w h : Z) :
  match CudaRenderer_new env w h with
  | Done r =>
      init_ok env = true /\
      r = mkRenderer w h session_disk session_blackHole initial
  | Thrown _ => window_ok env = false
  | Exited status =>
      status = 1 /\ window_ok env = true /\ init_ok env = false
  end.
Proof.
  exact (CudaRenderer_new_cases env w h).
Qed.

Section LoopFacts.

Variable libm : Libm.
Variable kernel : LaunchArgs -> nat -> float4.

Local Abbreviation iteration := (iteration libm kernel).
Local Abbreviation run_loop := (run_loop libm kernel).
Local Abbreviation run := (run libm kernel).

(** *** One iteration *)

Lemma fold_on_event evs : forall p,
  let q := fold_left on_event evs p in
  (cameraController (renderer q), preset q)
  = dispatch_all (cameraController (renderer p), preset p) evs /\
  shouldClose q = shouldClose p /\ device q = device p /\
  frameCount q = frameCount p.
Proof.
  induction evs as [ | ev evs IH]; intros p; cbn [fold_left].
  - repeat split.
  - destruct (IH (on_event p ev)) as (H1 & H2 & H3 & H4).
    cbv zeta. rewrite H1, H2, H3, H4.
    unfold on_event at 1 2.
    cbn [renderer preset shouldClose device frameCount cameraController
         set_controller].
    rewrite <- surjective_pairing. repeat split.
Qed.

(** An iteration in which every CUDA call succeeds. *)
Lemma iteration_ok startTime p env :
  cuda_ok env = true ->
  exists p' fr,
    iteration startTime p env = (p', fr, None) /\
    was_shown fr = true /\
    shouldClose p' = shouldClose p || fe_close env || fe_escape env /\
    frameCount p' = frameCount p + 1 /\
    (cameraController (renderer p'), preset p')
    = dispatch_all (cameraController (renderer p), preset p) (fe_events env) /\
    la_camera (fr_args fr)
    = getCamera libm (cameraController (renderer p'))
        (width (renderer p)) (height (renderer p)) /\
    device p'
    = mkDevice (frame_pixels kernel (fr_args fr)) None
               (frame_pixels kernel (fr_args fr)).
Proof.
  intros Hok. unfold cuda_ok in Hok.
  apply andb_true_iff in Hok as [Hok K5].
  apply andb_true_iff in Hok as [Hok K4].
  apply andb_true_iff in Hok as [Hok K3].
  apply andb_true_iff in Hok as [K1 K2].
  destruct (fold_on_event (fe_events env) p) as (H1 & H2 & H3 & H4).
  destruct (pollEvents_renderer p env) as (E1 & E2 & _ & _).
  unfold Renderer.iteration.
  rewrite K1, K2, K3, K4, K5. cbn [negb].
  eexists. eexists. split; [reflexivity | ].
  unfold pollEvents in *. cbv zeta in *.
  destruct (fe_escape env);
    cbn [was_shown fr_shown fr_args la_camera shouldClose frameCount renderer
         preset device set_device set_shouldClose cudaMemcpy2DToArray
         cudaDeviceSynchronize launchPhotorealisticKernel in_flight d_output
         texture];
    rewrite ?H2, ?H3, ?H4, ?orb_true_r, ?orb_false_r;
    cbn [renderer set_shouldClose] in E1, E2; rewrite ?E1, ?E2;
    repeat split; try exact H1.
Qed.


(** An iteration in which a CUDA call fails. *)
Lemma iteration_failed startTime p env :
  cuda_ok env = false ->
  exists p' fr,
    iteration startTime p env = (p', fr, Some 1) /\
    was_shown fr = false /\ frameCount p' = frameCount p.
Proof.
  intros Hko. unfold cuda_ok in Hko.
  destruct (fold_on_event (fe_events env) p) as (_ & _ & _ & H4).
  unfold Renderer.iteration, pollEvents.
  destruct (fe_sync_ok env), (fe_map_ok env), (fe_array_ok env),
    (fe_copy_ok env), (fe_unmap_ok env); try discriminate; cbn [negb];
    eexists; eexists; (split; [reflexivity | ]);
    destruct (fe_escape env);
    cbn [was_shown fr_shown frameCount set_device set_shouldClose];
    (split; [reflexivity | exact H4]).
Qed.

(** The camera an iteration passes to the kernel is that of the controller
    after the events polled in the same iteration. *)
Lemma iteration_camera startTime p env :
  let '(p', fr, _) := iteration startTime p env in
  la_camera (fr_args fr)
  = getCamera libm
      (fst (dispatch_all (cameraController (renderer p), preset p)
              (fe_events env)))
      (width (renderer p)) (height (renderer p)) /\
  (cameraController (renderer p'), preset p')
  = dispatch_all (cameraController (renderer p), preset p) (fe_events env) /\
  width (renderer p') = width (renderer p) /\
  height (renderer p') = height (renderer p).
Proof.
  destruct (fold_on_event (fe_events env) p) as (H1 & _ & _ & _).
  destruct (pollEvents_renderer p env) as (E1 & E2 & _ & _).
  unfold pollEvents in E1, E2. cbn [renderer set_shouldClose] in E1, E2.
  unfold Renderer.iteration, pollEvents.
  destruct (fe_escape env), (fe_sync_ok env), (fe_map_ok env),
    (fe_array_ok env), (fe_copy_ok env), (fe_unmap_ok env);
    cbn [negb fr_args la_camera renderer preset set_device set_shouldClose];
    rewrite <- H1, E1, E2; repeat split.
Qed.

(** *** The loop *)

Lemma run_loop_closed startTime p envs :
  shouldClose p = true -> run_loop startTime p envs = ([], Returned, p).
Proof.
  intros H. destruct envs; cbn [Renderer.run_loop]; rewrite H; reflexivity.
Qed.

(** When Escape is held or the window is closed during an iteration, the
    frame of that iteration is still rendered and shown, and the loop
    returns before the next one. *)
Theorem escape_ends_after_frame
    (startTime : Z) (p : Program) (env : FrameEnv) (rest : list FrameEnv) :
  shouldClose p = false ->
  fe_escape env || fe_close env = true ->
  cuda_ok env = true ->
  exists p' fr,
    run_loop startTime p (env :: rest) = ([fr], Returned, p') /\
    was_shown fr = true.
Proof.
  intros Hopen Hesc Hok.
  destruct (iteration_ok startTime p env Hok)
    as (p' & fr & Hit & Hshown & Hclose & _).
  exists p', fr. split; [ | exact Hshown].
  cbn [Renderer.run_loop]. rewrite Hopen, Hit.
  rewrite run_loop_closed; [reflexivity | ].
  rewrite Hclose, Hopen. cbn [orb].
  rewrite orb_comm. exact Hesc.
Qed.

Lemma run_loop_length (startTime : Z) (envs : list FrameEnv) : forall p,
  (List.length (fst (fst (run_loop startTime p envs))) <= List.length envs)%nat.
Proof.
  induction envs as [ | env envs IH]; intros p; cbn [Renderer.run_loop].
  - destruct (shouldClose p); cbn; lia.
  - destruct (shouldClose p); [cbn; lia | ].
    destruct (Renderer.iteration libm kernel startTime p env)
      as [[p' fr] [status | ]].
    + cbn. lia.
    + specialize (IH p').
      destruct (run_loop startTime p' envs) as [[frs ending] pf].
      cbn [fst List.length] in *. lia.
Qed.

Lemma run_loop_frameCount (startTime : Z) (envs : list FrameEnv) : forall p,
  let '(frs, _, pf) := run_loop startTime p envs in
  frameCount pf = frameCount p + Z.of_nat (List.length (filter was_shown frs)).
Proof.
  induction envs as [ | env envs IH]; intros p;
    cbn [Renderer.run_loop].
  - destruct (shouldClose p); cbn; lia.
  - destruct (shouldClose p); [cbn; lia | ].
    destruct (cuda_ok env) eqn:Hc.
    + destruct (iteration_ok startTime p env Hc)
        as (p' & fr & Hit & Hshown & _ & Hcount & _).
      rewrite Hit. specialize (IH p').
      destruct (run_loop startTime p' envs) as [[frs ending] pf].
      cbn [filter]. rewrite Hshown. cbn [List.length]. lia.
    + destruct (iteration_failed startTime p env Hc)
        as (p' & fr & Hit & Hshown & Hcount).
      rewrite Hit. cbn [filter]. rewrite Hshown. cbn [List.length]. lia.
Qed.

(** The frame counter counts the frames that reached the buffer swap, and
    stays an [int], as long as the run is short enough for the counter not
    to pass [INT_MAX]. *)
Theorem frameCount_counts_shown_frames
    (startTime : Z) (envs : list FrameEnv) (p : Program) :
  0 <= frameCount p ->
  frameCount p + Z.of_nat (List.length envs) <= 2147483647 ->
  let '(frs, _, pf) := run_loop startTime p envs in
  frameCount pf = frameCount p + Z.of_nat (List.length (filter was_shown frs))
  /\ 0 <= frameCount pf <= 2147483647.
Proof.
  intros H0 Hmax.
  pose proof (run_loop_frameCount startTime envs p) as Hc.
  pose proof (run_loop_length startTime envs p) as Hl.
  destruct (run_loop startTime p envs) as [[frs ending] pf].
  cbn [fst] in Hl.
  pose proof (filter_length_le was_shown frs) as Hf.
  split; [exact Hc | lia].
Qed.

Lemma run_loop_shown (startTime : Z) (envs : list FrameEnv) (p : Program) :
  let '(frs, ending, _) := run_loop startTime p envs in
  match ending with
  | Died status =>
      status = 1 /\
      exists init fr,
        frs = init ++ [fr] /\ forallb was_shown init = true /\
        was_shown fr = false
  | _ => forallb was_shown frs = true
  end.
Proof.
  revert p. induction envs as [ | env envs IH]; intros p;
    cbn [Renderer.run_loop].
  - destruct (shouldClose p); reflexivity.
  - destruct (shouldClose p); [reflexivity | ].
    destruct (cuda_ok env) eqn:Hc.
    + destruct (iteration_ok startTime p env Hc)
        as (p' & fr & Hit & Hshown & _).
      rewrite Hit. specialize (IH p').
      destruct (run_loop startTime p' envs) as [[frs ending] pf].
      destruct ending as [ | status | ].
      * cbn [forallb]. rewrite Hshown, IH. reflexivity.
      * destruct IH as (Hs & init & fr' & -> & Hinit & Hlast).
        split; [exact Hs | ]. exists (fr :: init), fr'.
        split; [reflexivity | ]. split; [ | exact Hlast].
        cbn [forallb]. rewrite Hshown, Hinit. reflexivity.
      * cbn [forallb]. rewrite Hshown, IH. reflexivity.
    + destruct (iteration_failed startTime p env Hc)
        as (p' & fr & Hit & Hshown & _).
      rewrite Hit. split; [reflexivity | ].
      exists [], fr. repeat split. exact Hshown.
Qed.

(** Every frame but the last is shown.  The run dies, with status 1,
    exactly when the last frame was launched but not shown. *)
Theorem only_the_last_frame_can_fail
    (startTime : Z) (envs : list FrameEnv) (p : Program) :
  let '(frs, ending, _) := run_loop startTime p envs in
  match ending with
  | Died status =>
      status = 1 /\
      exists init fr,
        frs = init ++ [fr] /\ forallb was_shown init = true /\
        was_shown fr = false
  | _ => forallb was_shown frs = true
  end.
Proof.
  exact (run_loop_shown startTime envs p).
Qed.

(** The camera of frame [i] is that of the controller after all the events
    delivered up to and including iteration [i]. *)
Lemma run_loop_camera startTime envs : forall p i fr,
  nth_error (frames (run_loop startTime p envs)) i = Some fr ->
  la_camera (fr_args fr)
  = getCamera libm
      (fst (dispatch_all (cameraController (renderer p), preset p)
              (events_through (S i) envs)))
      (width (renderer p)) (height (renderer p)).
Proof.
  induction envs as [ | env envs IH]; intros p i fr;
    cbn [Renderer.run_loop].
  - destruct (shouldClose p); destruct i; discriminate.
  - destruct (shouldClose p); [destruct i; discriminate | ].
    pose proof (iteration_camera startTime p env) as Hi.
    destruct (iteration startTime p env) as [[p' fr0] [status | ]];
      destruct Hi as (Hcam & Hst & Hw & Hh).
    + unfold frames; cbn [fst]. destruct i as [ | i]; cbn [nth_error].
      * intros [= <-]. unfold events_through. cbn [firstn map List.concat].
        rewrite app_nil_r. exact Hcam.
      * destruct i; discriminate.
    + specialize (IH p').
      unfold frames in *.
      destruct (run_loop startTime p' envs) as [[frs ending] pf].
      cbn [fst] in *. destruct i as [ | i]; cbn [nth_error].
      * intros [= <-]. unfold events_through. cbn [firstn map List.concat].
        rewrite app_nil_r. exact Hcam.
      * intros Hn. rewrite (IH i fr Hn), Hst, Hw, Hh.
        unfold events_through, dispatch_all.
        change (firstn (S (S i)) (env :: envs))
          with (env :: firstn (S i) envs).
        cbn [map List.concat]. rewrite fold_left_app. reflexivity.
Qed.

(** In a run, the camera passed to the kernel in frame [i] is that of the
    controller after all the events delivered up to and including iteration
    [i], starting from the constructed controller. *)
Theorem frame_camera_follows_events
    (r : CudaRenderer) (garbage : list float4) (startTime : Z)
    (envs : list FrameEnv) (i : nat) (fr : FrameRecord) :
  nth_error (frames (run r garbage startTime envs)) i = Some fr ->
  la_camera (fr_args fr)
  = getCamera libm
      (fst (dispatch_all (cameraController r, 0) (events_through (S i) envs)))
      (width r) (height r).
Proof.
  intros H. unfold Renderer.run in H.
  apply (run_loop_camera startTime envs _ i fr H).
Qed.


(** *** The device between iterations *)

Lemma run_loop_no_frames startTime envs p :
  frames (run_loop startTime p envs) = [] ->
  snd (run_loop startTime p envs) = p.
Proof.
  destruct envs as [ | env envs]; cbn [Renderer.run_loop].
  - destruct (shouldClose p); reflexivity.
  - destruct (shouldClose p); [reflexivity | ].
    destruct (iteration startTime p env) as [[p' fr] [status | ]].
    + unfold frames; cbn [fst]. discriminate.
    + destruct (run_loop startTime p' envs) as [[frs ending] pf].
      unfold frames; cbn [fst]. discriminate.
Qed.

(** Unless the process died, no kernel is running when the loop stops, and
    the buffer and the texture hold the finished frame of the last launch:
    a frame never writes into the buffer once the next pass has begun. *)
Theorem buffer_holds_last_frame
    (startTime : Z) (envs : list FrameEnv) (p : Program) :
  in_flight (device p) = None ->
  let '(frs, ending, pf) := run_loop startTime p envs in
  match ending with
  | Died _ => True
  | _ =>
      in_flight (device pf) = None /\
      forall init fr,
        frs = init ++ [fr] ->
        d_output (device pf) = frame_pixels kernel (fr_args fr) /\
        texture (device pf) = frame_pixels kernel (fr_args fr)
  end.
Proof.
  revert p. induction envs as [ | env envs IH]; intros p Hp;
    cbn [Renderer.run_loop].
  - destruct (shouldClose p); (split; [exact Hp | ]);
      intros [ | a init] fr H; discriminate.
  - destruct (shouldClose p).
    { split; [exact Hp | ]. intros [ | a init] fr H; discriminate. }
    destruct (cuda_ok env) eqn:Hc.
    + destruct (iteration_ok startTime p env Hc)
        as (p' & fr0 & Hit & _ & _ & _ & _ & _ & Hdev).
      rewrite Hit.
      assert (Hp' : in_flight (device p') = None) by (rewrite Hdev; reflexivity).
      specialize (IH p' Hp').
      pose proof (run_loop_no_frames startTime envs p') as Hnone.
      unfold frames in Hnone.
      destruct (run_loop startTime p' envs) as [[frs ending] pf].
      cbn [fst snd] in Hnone.
      destruct ending as [ | status | ]; try exact I;
        destruct IH as [IH1 IH2]; (split; [exact IH1 | ]);
        intros init fr H;
        (destruct init as [ | a init];
         [ cbn [app] in H; injection H as E1 E2; subst fr0 frs;
           rewrite (Hnone eq_refl), Hdev; split; reflexivity
         | cbn [app] in H; injection H as _ E2; apply (IH2 init fr E2) ]).
    + destruct (iteration_failed startTime p env Hc)
        as (p' & fr0 & Hit & _).
      rewrite Hit. exact I.
Qed.

End LoopFacts.

End ProgramFacts.

Module ProgramRunFacts.
Import Controller Renderer ProgramSpec ClockSpec RendererFacts RoundingFacts
       ProgramFacts SampleSession.

(** *** The time passed to the kernel is a number *)

Lemma elapsed_seconds_finite startTime t :
  startTime <= t -> t - startTime < 2 ^ 63 ->
  is_finite (elapsed_seconds startTime t) = true /\
  fle (S754_zero false) (elapsed_seconds startTime t) = true.
Proof.
  intros H1 H2. unfold elapsed_seconds.
  destruct (Z.eq_dec (t - startTime) 0) as [-> | Hn].
  - split; reflexivity.
  - rewrite elapsed_seconds_pos by lia. split; reflexivity.
Qed.

Section Run.

Variable libm : Libm.
Variable kernel : LaunchArgs -> nat -> float4.

Lemma run_loop_times_forall (P : float -> Prop) startTime envs : forall p,
  Forall (fun env => P (elapsed_seconds startTime (fe_now env))) envs ->
  Forall P (launch_times (run_loop libm kernel startTime p envs)).
Proof.
  induction envs as [ | env envs IH]; intros p Hall;
    cbn [Renderer.run_loop].
  - destruct (shouldClose p); constructor.
  - destruct (shouldClose p); [constructor | ].
    apply Forall_cons_iff in Hall as [Hhd Htl].
    pose proof (iteration_params libm kernel startTime p env) as Hi.
    destruct (iteration libm kernel startTime p env) as [[p' fr] [status | ]];
      destruct Hi as (_ & _ & _ & _ & Ht & _).
    + unfold launch_times, frames; cbn [fst map]. rewrite Ht.
      constructor; [exact Hhd | constructor].
    + specialize (IH p' Htl). unfold launch_times, frames in *.
      destruct (run_loop libm kernel startTime p' envs) as [[frs ending] pf].
      cbn [fst map] in *. rewrite Ht. constructor; assumption.
Qed.

(** With a clock that never shows a time before [startTime], every time
    passed to the kernel is a finite, non-negative number: never a NaN,
    never infinite.  The readings need not be in order. *)
Theorem launch_times_are_numbers
    (r : CudaRenderer) (garbage : list float4) (startTime : Z)
    (envs : list FrameEnv) :
  clock_not_before startTime envs ->
  Forall (fun t => is_finite t = true /\ fle (S754_zero false) t = true)
         (launch_times (run libm kernel r garbage startTime envs)).
Proof.
  intros Hc. unfold Renderer.run.
  apply run_loop_times_forall.
  unfold clock_not_before in Hc.
  rewrite Forall_forall in *. intros env Hin.
  destruct (Hc env Hin) as [Hge Hb].
  apply elapsed_seconds_finite; [exact Hge | exact Hb].
Qed.

End Run.

Lemma launch_times_are_numbers_witness :
  clock_not_before 1000000000 backward_envs /\
  Forall (fun t => is_finite t = true /\ fle (S754_zero false) t = true)
         (launch_times (run sample_libm sample_kernel small_renderer []
                          1000000000 backward_envs)).
Proof.
  split; [repeat constructor; cbn; lia | ].
  apply (launch_times_are_numbers sample_libm sample_kernel small_renderer []
           1000000000 backward_envs).
  repeat constructor; cbn; lia.
Defined.

(** *** Witnesses for the loop *)

Lemma escape_ends_after_frame_witness :
  shouldClose start_program = false /\
  fe_escape escape_frame || fe_close escape_frame = true /\
  cuda_ok escape_frame = true /\
  exists p' fr,
    run_loop sample_libm sample_kernel 1000000000 start_program
      (escape_frame :: sample_envs) = ([fr], Returned, p') /\
    was_shown fr = true.
Proof.
  split; [reflexivity | split; [reflexivity | split; [reflexivity | ]]].
  apply (escape_ends_after_frame sample_libm sample_kernel 1000000000
           start_program escape_frame sample_envs); reflexivity.
Defined.

Lemma frame_camera_follows_events_witness :
  nth_error small_frames 1 = Some second_frame /\
  la_camera (fr_args second_frame)
  = getCamera sample_libm
      (fst (dispatch_all (cameraController small_renderer, 0)
              (events_through 2 sample_envs)))
      (width small_renderer) (height small_renderer).
Proof.
  split; [vm_compute; reflexivity | ].
  apply (frame_camera_follows_events sample_libm sample_kernel small_renderer
           [] 1000000000 sample_envs 1 second_frame).
  vm_compute. reflexivity.
Defined.

Lemma buffer_holds_last_frame_witness :
  in_flight (device start_program) = None /\
  let '(frs, ending, pf) :=
    run_loop sample_libm sample_kernel 1000000000 start_program
      [escape_frame] in
  match ending with
  | Died _ => True
  | _ =>
      in_flight (device pf) = None /\
      forall init fr,
        frs = init ++ [fr] ->
        d_output (device pf) = frame_pixels sample_kernel (fr_args fr) /\
        texture (device pf) = frame_pixels sample_kernel (fr_args fr)
  end.
Proof.
  split; [reflexivity | ].
  apply (buffer_holds_last_frame sample_libm sample_kernel 1000000000
           [escape_frame] start_program).
  reflexivity.
Defined.

Lemma frameCount_counts_shown_frames_witness :
  0 <= frameCount start_program /\
  frameCount start_program + Z.of_nat (List.length sample_envs) <= 2147483647 /\
  let '(frs, _, pf) :=
    run_loop sample_libm sample_kernel 1000000000 start_program sample_envs in
  frameCount pf
  = frameCount start_program + Z.of_nat (List.length (filter was_shown frs))
  /\ 0 <= frameCount pf <= 2147483647.
Proof.
  split; [cbn; lia | split; [cbn; lia | ]].
  apply (frameCount_counts_shown_frames sample_libm sample_kernel 1000000000
           sample_envs start_program); cbn; lia.
Defined.

(** *** The whole program *)

(** [main] renders every frame at 1200 x 900.  It ends with status 0 only
    after a run in which every frame launched was shown, with -1 exactly when
    GLFW or GLEW failed and then without any frame, and otherwise with
    status 1. *)
Theorem main_exit_status
    (libm : Libm) (kernel : LaunchArgs -> nat -> float4) (env : InitEnv)
    (garbage : list float4) (startTime : Z) (envs : list FrameEnv) :
  let '(frs, status) := main libm kernel env garbage startTime envs in
  Forall (fun fr => la_width (fr_args fr) = 1200 /\
                    la_height (fr_args fr) = 900) frs /\
  match status with
  | Some s =>
      (s = 0 /\ init_ok env = true /\ forallb was_shown frs = true) \/
      (s = 1 /\ window_ok env = true) \/
      (s = -1 /\ window_ok env = false /\ frs = [])
  | None => init_ok env = true /\ forallb was_shown frs = true
  end.
Proof.
  unfold main.
  pose proof (CudaRenderer_new_cases env 1200 900) as Hc.
  destruct (CudaRenderer_new env 1200 900) as [r | what | status].
  - destruct Hc as [Hok Hr].
    pose proof (run_frames_params libm kernel r garbage startTime envs) as Hp.
    pose proof (run_loop_shown libm kernel startTime envs
                  (mkProgram r 0 false (mkDevice garbage None garbage) 0)) as Hl.
    unfold Renderer.run, frames in *.
    destruct (run_loop libm kernel startTime _ envs) as [[frs ending] pf].
    cbn [fst] in Hp. split.
    + eapply Forall_impl; [ | exact Hp].
      intros fr (_ & _ & Hw & Hh). rewrite Hw, Hh, Hr. split; reflexivity.
    + destruct ending as [ | s | ].
      * left. auto.
      * right. left. destruct Hl as [-> _]. split; [reflexivity | ].
        unfold init_ok in Hok. unfold window_ok.
        do 6 (apply andb_true_iff in Hok as [Hok _]). exact Hok.
      * auto.
  - split; [constructor | ]. right. right. auto.
  - split; [constructor | ]. right. left. tauto.
Qed.

End ProgramRunFacts.
